(** * Lequel: trigram language identification (Lequel.cpp)

    A shallow embedding of [buildTrigramProfile], [normalizeTrigramProfile],
    [getCosineSimilarity], [identifyLanguage], [addLanguage] and
    [buildLanguageProfile], and the properties of the specification that
    concern them.

    Conventions of the embedding:
    - [std::string] is [string] (a sequence of 8-bit characters); a [Text] is a
      list of lines;
    - [std::wstring] is a list of [wchar_t] values, each an integer;
    - [float] is IEEE 754 binary32, through [SpecFloat] at precision 24 and
      maximal exponent 128, every operation rounded to binary32;
    - [std::map<std::string, float>] is the list of its entries in iteration
      order, that is by increasing key;
    - a C++ exception that leaves a function is the [Throw] outcome of
      [result];
    - reference parameters are passed in and handed back;
    - [wstring_convert], [::tolower], [sqrtf] and [std::to_string] are those
      of the libraries the program is built with, libstdc++ 12 and glibc on
      x86-64: the converter reads UTF-8 as [utf16_in] of libstdc++ does, which
      takes a sequence cut short by the end of the line for the end of the
      input and accepts a surrogate written as three bytes;
    - the line written to [cout] for every catalogue entry is not modelled. *)

From Stdlib Require Import ZArith List String Ascii Bool Lia.
From Stdlib Require Import Floats.SpecFloat DecimalString DecimalZ Permutation.
Import ListNotations.

Local Open Scope Z_scope.

(** * The program *)

(** ** Exceptions *)

Inductive exn : Type :=
| range_error. (* std::range_error, raised by wstring_convert *)

Inductive result (A : Type) : Type :=
| Ok (a : A)
| Throw (e : exn).

Arguments Ok {A} a.
Arguments Throw {A} e.

Definition bind {A B : Type} (r : result A) (k : A -> result B) : result B :=
  match r with
  | Ok a => k a
  | Throw e => Throw e
  end.

Notation "x <- r ;; k" := (bind r (fun x => k))
  (at level 61, r at next level, right associativity).

(** A loop whose body may throw: the first exception ends it. *)
Fixpoint for_each {A S : Type} (body : S -> A -> result S) (xs : list A) (s : S)
  : result S :=
  match xs with
  | [] => Ok s
  | x :: xs' => s' <- body s x ;; for_each body xs' s'
  end.

(** ** Strings, bytes and wide strings *)

(** Modelled from the spec: [Text] is declared in Text.h, which is not among
    the sources; it is an ordered sequence of lines. *)
Definition Text : Type := list string.

Definition wstring : Type := list Z.

Definition byte_of_ascii (c : ascii) : Z := Z.of_N (N_of_ascii c).
Definition ascii_of_byte (b : Z) : ascii := ascii_of_N (Z.to_N b).

Fixpoint bytes_of_string (s : string) : list Z :=
  match s with
  | EmptyString => []
  | String c s' => byte_of_ascii c :: bytes_of_string s'
  end.

Fixpoint string_of_bytes (bs : list Z) : string :=
  match bs with
  | [] => EmptyString
  | b :: bs' => String (ascii_of_byte b) (string_of_bytes bs')
  end.

(** ** The converter: [wstring_convert<codecvt_utf8_utf16<wchar_t>>]

    The converter is the one of the library the program is built with,
    libstdc++ 12.  [from_bytes] and [to_bytes] (bits/locale_conv.h) run the
    facet's [do_in] and [do_out], which are [utf16_in] and [utf16_out] of
    src/c++11/codecvt.cc, with 0x10FFFF as the maximal code point and no byte
    order mark read or written.  A [wchar_t] holds one UTF-16 code unit: a
    code point above U+FFFF becomes a surrogate pair.  The output buffer is
    always large enough.  A conversion that ends with [codecvt_base::error]
    raises [range_error], the converter being built without error strings;
    one that ends with [codecvt_base::ok] or [codecvt_base::partial] returns
    what was converted up to there. *)

(** [codecvt_base::result]. *)
Inductive codecvt_result : Type :=
| codecvt_ok
| codecvt_partial
| codecvt_error.

(** [(c & 0xC0) == 0x80], on a byte. *)
Definition is_cont (b : Z) : bool := (0x80 <=? b) && (b <=? 0xBF).

Definition is_high_surrogate (w : Z) : bool := (0xD800 <=? w) && (w <=? 0xDBFF).
Definition is_low_surrogate (w : Z) : bool := (0xDC00 <=? w) && (w <=? 0xDFFF).

(** [surrogate_pair_to_code_point]. *)
Definition surrogate_pair_to_code_point (high low : Z) : Z :=
  Z.shiftl high 10 + low - 0x35FDC00.

(** [write_utf16_code_point]: the UTF-16 code units of a code point. *)
Definition utf16_units (cp : Z) : wstring :=
  if cp <? 0x10000 then [cp]
  else [0xD800 + Z.shiftr (cp - 0x10000) 10; 0xDC00 + Z.land (cp - 0x10000) 0x3FF].

(** [write_utf8_code_point]: the UTF-8 bytes of a code point. *)
Definition utf8_bytes (cp : Z) : list Z :=
  if cp <? 0x80 then [cp]
  else if cp <? 0x800 then
    [0xC0 + Z.shiftr cp 6; 0x80 + Z.land cp 0x3F]
  else if cp <? 0x10000 then
    [0xE0 + Z.shiftr cp 12; 0x80 + Z.land (Z.shiftr cp 6) 0x3F; 0x80 + Z.land cp 0x3F]
  else
    [0xF0 + Z.shiftr cp 18; 0x80 + Z.land (Z.shiftr cp 12) 0x3F;
     0x80 + Z.land (Z.shiftr cp 6) 0x3F; 0x80 + Z.land cp 0x3F].

(** What [read_utf8_code_point] finds at the head of the bytes left: a code
    point and the bytes after it, a sequence that the end of the input cuts
    short, or an invalid sequence. *)
Inductive code_point_read : Type :=
| read_code_point (c : Z) (next : list Z)
| incomplete_mb_character
| invalid_mb_sequence.

(** [read_utf8_code_point].  The first byte alone decides how many bytes are
    needed; when fewer are left the sequence is incomplete, whatever they
    are; otherwise the bytes after the first are examined in turn. *)
Definition read_utf8_code_point (from : list Z) : code_point_read :=
  match from with
  | [] => incomplete_mb_character
  | c1 :: from1 =>
    if c1 <? 0x80 then read_code_point c1 from1
    else if c1 <? 0xC2 then invalid_mb_sequence
    else if c1 <? 0xE0 then
      match from1 with
      | c2 :: from2 =>
        if negb (is_cont c2) then invalid_mb_sequence
        else read_code_point (Z.shiftl c1 6 + c2 - 0x3080) from2
      | _ => incomplete_mb_character
      end
    else if c1 <? 0xF0 then
      match from1 with
      | c2 :: c3 :: from3 =>
        if negb (is_cont c2) then invalid_mb_sequence
        else if (c1 =? 0xE0) && (c2 <? 0xA0) then invalid_mb_sequence
        else if negb (is_cont c3) then invalid_mb_sequence
        else read_code_point (Z.shiftl c1 12 + Z.shiftl c2 6 + c3 - 0xE2080) from3
      | _ => incomplete_mb_character
      end
    else if c1 <? 0xF5 then
      match from1 with
      | c2 :: c3 :: c4 :: from4 =>
        if negb (is_cont c2) then invalid_mb_sequence
        else if (c1 =? 0xF0) && (c2 <? 0x90) then invalid_mb_sequence
        else if (c1 =? 0xF4) && (0x90 <=? c2) then invalid_mb_sequence
        else if negb (is_cont c3) then invalid_mb_sequence
        else if negb (is_cont c4) then invalid_mb_sequence
        else read_code_point
               (Z.shiftl c1 18 + Z.shiftl c2 12 + Z.shiftl c3 6 + c4 - 0x3C82080)
               from4
      | _ => incomplete_mb_character
      end
    else invalid_mb_sequence
  end.

(** The result of a conversion, and what it wrote, after [xs] was written
    first. *)
Definition emit {A : Type} (xs : list A) (r : codecvt_result * list A)
  : codecvt_result * list A :=
  (fst r, xs ++ snd r).

(** [utf16_in]: the loop reads one code point after the other and writes its
    code units; it ends with [partial] at an incomplete sequence and with
    [error] at an invalid one.  The call of [read_utf8_code_point] is
    written out, so that the recursion is on the bytes left. *)
Fixpoint utf16_in (from : list Z) : codecvt_result * wstring :=
  match from with
  | [] => (codecvt_ok, [])
  | c1 :: from1 =>
    if c1 <? 0x80 then emit (utf16_units c1) (utf16_in from1)
    else if c1 <? 0xC2 then (codecvt_error, [])
    else if c1 <? 0xE0 then
      match from1 with
      | c2 :: from2 =>
        if negb (is_cont c2) then (codecvt_error, [])
        else emit (utf16_units (Z.shiftl c1 6 + c2 - 0x3080)) (utf16_in from2)
      | _ => (codecvt_partial, [])
      end
    else if c1 <? 0xF0 then
      match from1 with
      | c2 :: c3 :: from3 =>
        if negb (is_cont c2) then (codecvt_error, [])
        else if (c1 =? 0xE0) && (c2 <? 0xA0) then (codecvt_error, [])
        else if negb (is_cont c3) then (codecvt_error, [])
        else emit (utf16_units (Z.shiftl c1 12 + Z.shiftl c2 6 + c3 - 0xE2080))
                  (utf16_in from3)
      | _ => (codecvt_partial, [])
      end
    else if c1 <? 0xF5 then
      match from1 with
      | c2 :: c3 :: c4 :: from4 =>
        if negb (is_cont c2) then (codecvt_error, [])
        else if (c1 =? 0xF0) && (c2 <? 0x90) then (codecvt_error, [])
        else if (c1 =? 0xF4) && (0x90 <=? c2) then (codecvt_error, [])
        else if negb (is_cont c3) then (codecvt_error, [])
        else if negb (is_cont c4) then (codecvt_error, [])
        else emit (utf16_units
                     (Z.shiftl c1 18 + Z.shiftl c2 12 + Z.shiftl c3 6 + c4 - 0x3C82080))
                  (utf16_in from4)
      | _ => (codecvt_partial, [])
      end
    else (codecvt_error, [])
  end.

(** [utf16_out]: a high surrogate must be followed by a low one, and the
    pair is written as the four bytes of its code point; a high surrogate
    that ends the input stops the conversion there, with [ok]; a low
    surrogate with no high one before it, and a value that is no code point,
    are errors. *)
Fixpoint utf16_out (from : wstring) : codecvt_result * list Z :=
  match from with
  | [] => (codecvt_ok, [])
  | c :: from1 =>
    if is_high_surrogate c then
      match from1 with
      | [] => (codecvt_ok, [])
      | c2 :: from2 =>
        if is_low_surrogate c2 then
          emit (utf8_bytes (surrogate_pair_to_code_point c c2)) (utf16_out from2)
        else (codecvt_error, [])
      end
    else if is_low_surrogate c then (codecvt_error, [])
    else if negb ((0 <=? c) && (c <=? 0x10FFFF)) then (codecvt_error, [])
    else emit (utf8_bytes c) (utf16_out from1)
  end.

(** [from_bytes]: [range_error] when the conversion ends with [error], and
    otherwise the units written. *)
Definition from_bytes (s : string) : result wstring :=
  match utf16_in (bytes_of_string s) with
  | (codecvt_error, _) => Throw range_error
  | (_, ws) => Ok ws
  end.

(** [to_bytes]: the way back, with the same rule. *)
Definition to_bytes (ws : wstring) : result string :=
  match utf16_out ws with
  | (codecvt_error, _) => Throw range_error
  | (_, bs) => Ok (string_of_bytes bs)
  end.

(** [::tolower] of <cctype>, in the "C" locale in which a program starts:
    only the letters A to Z change. *)
Definition tolower (c : Z) : Z :=
  if (65 <=? c) && (c <=? 90) then c + 32 else c.

(** ** [float]: IEEE 754 binary32 *)

Definition float : Type := spec_float.

Definition prec : Z := 24.
Definition emax : Z := 128.

Definition fadd : float -> float -> float := SFadd prec emax.
Definition fmul : float -> float -> float := SFmul prec emax.
Definition fdiv : float -> float -> float := SFdiv prec emax.
Definition sqrtf : float -> float := SFsqrt prec emax.

(** [a > b]; false as soon as one side is a NaN. *)
Definition fgt (a b : float) : bool := SFltb b a.

(** The literals [0.F] and [1.0F]. *)
Definition F0 : float := S754_zero false.
Definition F1 : float := SFone prec emax.

Definition is_nan (x : float) : bool :=
  match x with S754_nan => true | _ => false end.

(** The integer a float stands for, when it stands for one. *)
Definition float_to_Z (x : float) : option Z :=
  match x with
  | S754_zero _ => Some 0
  | S754_finite s m e =>
    let v :=
      match e with
      | Z0 => Some (Zpos m)
      | Zpos p => Some (Zpos m * 2 ^ Zpos p)
      | Zneg p =>
        if Zpos m mod 2 ^ Zpos p =? 0 then Some (Zpos m / 2 ^ Zpos p) else None
      end in
    option_map (fun z => if s then - z else z) v
  | _ => None
  end.

(** ** [TrigramProfile]: [std::map<std::string, float>] *)

(** Modelled from the spec: [TrigramProfile] is declared in Lequel.h, which is
    not among the sources; it maps a trigram to a frequency, with unique keys.
    The code uses it as a [std::map] from [std::string] to [float]: a key is
    looked up with [find] and [[]], entries are visited through [first] and
    [second], and the values are combined with [float] variables. *)
Definition TrigramProfile : Type := list (string * float).

(** [m.find(k)]: [None] stands for [m.end()]. *)
Fixpoint find (k : string) (m : TrigramProfile) : option float :=
  match m with
  | [] => None
  | (k', v) :: m' => if String.eqb k k' then Some v else find k m'
  end.

(** [m.insert({k, v})]: a key already there keeps its value. *)
Fixpoint insert (k : string) (v : float) (m : TrigramProfile) : TrigramProfile :=
  match m with
  | [] => [(k, v)]
  | (k', v') :: m' =>
    match String.compare k k' with
    | Lt => (k, v) :: m
    | Eq => m
    | Gt => (k', v') :: insert k v m'
    end
  end.

(** [m[k]]: the value at [k], after inserting [0.F] there if [k] is absent. *)
Definition index (k : string) (m : TrigramProfile) : float * TrigramProfile :=
  match find k m with
  | Some v => (v, m)
  | None => (F0, insert k F0 m)
  end.

(** A store through the reference [m[k]]. *)
Fixpoint assign (k : string) (v : float) (m : TrigramProfile) : TrigramProfile :=
  match m with
  | [] => []
  | (k', v') :: m' =>
    if String.eqb k k' then (k', v) :: m' else (k', v') :: assign k v m'
  end.

Definition empty (m : TrigramProfile) : bool :=
  match m with [] => true | _ => false end.

(** Keys strictly increasing: what iteration over a [std::map] shows. *)
Fixpoint sorted (m : TrigramProfile) : Prop :=
  match m with
  | [] => True
  | (k, _) :: m' =>
    match m' with
    | [] => True
    | (k', _) :: _ => String.compare k k' = Lt
    end /\ sorted m'
  end.

(** ** [buildTrigramProfile] *)

(** [s.substr(pos, n)] on a wide string. *)
Definition substr (ws : wstring) (pos n : nat) : wstring :=
  firstn n (skipn pos ws).

(** The test and the assignment on the line: a final ['\r'] is removed. *)
Definition strip_cr (line : string) : string :=
  if (0 <? String.length line)%nat
     && match String.get (String.length line - 1) line with
        | Some c => Ascii.eqb c "013"%char
        | None => false
        end
  then String.substring 0 (String.length line - 1) line
  else line.

(** The body of the inner loop, at index [i]. *)
Definition count_trigram (unicodeString : wstring) (textProfile : TrigramProfile)
           (i : nat) : result TrigramProfile :=
  let unicodeTrigram := substr unicodeString i 3 in
  trigram <- to_bytes unicodeTrigram ;;
  match find trigram textProfile with
  | Some _ =>
    let '(v, textProfile') := index trigram textProfile in
    Ok (assign trigram (fadd v F1) textProfile')
  | None => Ok (insert trigram F1 textProfile)
  end.

(** The body of the outer loop, for one line. *)
Definition scan_line (textProfile : TrigramProfile) (line : string)
  : result TrigramProfile :=
  let line := strip_cr line in
  unicodeString <- from_bytes line ;;
  let unicodeStringLength := List.length unicodeString in
  if (unicodeStringLength <? 3)%nat then Ok textProfile
  else
    let unicodeString := map tolower unicodeString in
    for_each (count_trigram unicodeString)
             (seq 0 (unicodeStringLength - 2)) textProfile.

Definition buildTrigramProfile (text : Text) : result TrigramProfile :=
  for_each scan_line text [].

Definition buildLanguageProfile (corpus : Text) : result TrigramProfile :=
  buildTrigramProfile corpus.

(** ** [normalizeTrigramProfile] *)

Definition normalizeTrigramProfile (trigramProfile : TrigramProfile)
  : TrigramProfile :=
  let sumSquares :=
    fold_left (fun acc element => fadd acc (fmul (snd element) (snd element)))
              trigramProfile F0 in
  let squareRoot := sqrtf sumSquares in
  map (fun element => (fst element, fdiv (snd element) squareRoot)) trigramProfile.

(** ** [getCosineSimilarity]

    Both profiles come in by reference and are handed back next to the
    score. *)

Definition cosine_step (state : float * TrigramProfile)
           (elementText : string * float) : float * TrigramProfile :=
  let '(sumProduct, languageProfile) := state in
  let trigram := fst elementText in
  match find trigram languageProfile with
  | Some _ =>
    let '(v, languageProfile') := index trigram languageProfile in
    (fadd sumProduct (fmul (snd elementText) v), languageProfile')
  | None => state
  end.

Definition getCosineSimilarity (textProfile languageProfile : TrigramProfile)
  : float * (TrigramProfile * TrigramProfile) :=
  let '(sumProduct, languageProfile') :=
    fold_left cosine_step textProfile (F0, languageProfile) in
  (sumProduct, (textProfile, languageProfile')).

(** ** [identifyLanguage] *)

(** Modelled from the spec: [LanguageProfile] and [LanguageProfiles] are
    declared in Lequel.h, which is not among the sources; a language profile
    pairs a language code with a trigram profile, and the catalogue is an
    ordered collection of them. *)
Record LanguageProfile : Type := {
  languageCode : string;
  trigramProfile : TrigramProfile
}.

Definition LanguageProfiles : Type := list LanguageProfile.

Definition decimal (z : Z) : string := NilZero.string_of_int (Z.to_int z).

Definition round_half_even (num den : Z) : Z :=
  let q := num / den in
  match 2 * (num mod den) ?= den with
  | Lt => q
  | Gt => q + 1
  | Eq => if Z.even q then q else q + 1
  end.

(** [std::to_string(float)]: the value printed by ["%f"], six digits after the
    point, the exact value rounded to nearest.  The sign of a NaN is not
    modelled. *)
Definition to_string (x : float) : string :=
  match x with
  | S754_nan => "nan"
  | S754_infinity s => if s then "-inf" else "inf"
  | S754_zero s => if s then "-0.000000" else "0.000000"
  | S754_finite s m e =>
    let n :=
      match e with
      | Zneg p => round_half_even (Zpos m * 10 ^ 6) (2 ^ Zpos p)
      | _ => Zpos m * 2 ^ e * 10 ^ 6
      end in
    ((if s then "-" else "") ++ decimal (n / 10 ^ 6) ++ "."
     ++ String.substring 1 6 (decimal (10 ^ 6 + n mod 10 ^ 6)))%string
  end.

(** The body of the loop over the catalogue.  The loop variable is a copy of
    the entry, so what [getCosineSimilarity] hands back for it is dropped at
    the end of the iteration. *)
Definition identify_step (state : TrigramProfile * float * string)
           (entry : LanguageProfile) : TrigramProfile * float * string :=
  let '(trigramProfileText, maxCosineSimilarity, similarLenguajeCode) := state in
  let languageProfile := entry in
  let '(cosineSimilarity, (trigramProfileText', _)) :=
    getCosineSimilarity trigramProfileText (trigramProfile languageProfile) in
  if fgt cosineSimilarity maxCosineSimilarity
  then (trigramProfileText', cosineSimilarity, languageCode languageProfile)
  else (trigramProfileText', maxCosineSimilarity, similarLenguajeCode).

(** The outcome of the call and the catalogue as the call leaves it. *)
Definition identifyLanguage (text : Text) (languages : LanguageProfiles)
  : result string * LanguageProfiles :=
  match buildTrigramProfile text with
  | Throw e => (Throw e, languages)
  | Ok trigramProfileText =>
    let trigramProfileText := normalizeTrigramProfile trigramProfileText in
    let '(_, maxCosineSimilarity, similarLenguajeCode) :=
      fold_left identify_step languages (trigramProfileText, F0, "---"%string) in
    (Ok (if fgt maxCosineSimilarity F0
         then (similarLenguajeCode ++ " (" ++ to_string maxCosineSimilarity ++ ")")%string
         else similarLenguajeCode),
     languages)
  end.

(** ** [addLanguage] *)

(** Modelled from the spec: [CSVData] is declared in CSVData.h, which is not
    among the sources; it is a sequence of rows, and [addLanguage] builds each
    row from two strings. *)
Definition CSVData : Type := list (list string).

(** [(int) x]: truncation towards zero.  Outside the range of [int], and for
    a NaN, the conversion is undefined in C++; the value given here is the one
    x86 produces. *)
Definition int_of_float (x : float) : Z :=
  let t :=
    match x with
    | S754_zero _ => Some 0
    | S754_finite s m e =>
      let a := match e with
               | Zneg p => Zpos m / 2 ^ Zpos p
               | _ => Zpos m * 2 ^ e
               end in
      Some (if s then - a else a)
    | _ => None
    end in
  match t with
  | Some z => if (- 2 ^ 31 <=? z) && (z <? 2 ^ 31) then z else - 2 ^ 31
  | None => - 2 ^ 31
  end.

Section AddLanguage.

(** Modelled from the spec: [getTextFromFile] and [writeCSV] are declared in
    Text.h and CSVData.h and defined outside Lequel.cpp; the first supplies
    the lines of a file and a success flag, the second persists rows and
    returns a success flag.  [getTextFromFile path] gives the flag and the
    lines left in the second argument; [writeCSV path rows] gives the flag. *)
Variable getTextFromFile : string -> bool * Text.
Variable writeCSV : string -> CSVData -> bool.

(** The outcome of the call and the calls to [writeCSV] it made, each with
    its path and its rows. *)
Definition addLanguage (path : string) : result bool * list (string * CSVData) :=
  let success := false in
  let '(read, corpus) := getTextFromFile path in
  if read then
    match buildLanguageProfile corpus with
    | Throw e => (Throw e, [])
    | Ok corpusProfile =>
      if negb (empty corpusProfile) then
        let csvTrigrams :=
          map (fun element => [fst element; decimal (int_of_float (snd element))])
              corpusProfile in
        (Ok (writeCSV "resources/trigrams/gua.csv"%string csvTrigrams),
         [("resources/trigrams/gua.csv"%string, csvTrigrams)])
      else (Ok success, [])
    end
  else (Ok success, []).

End AddLanguage.

(** * Notions used in the properties *)

(** ** [getCosineSimilarity] *)

(** The products the score adds up, in the key order of [textProfile]. *)
Definition shared_products (textProfile languageProfile : TrigramProfile)
  : list float :=
  flat_map (fun element =>
              match find (fst element) languageProfile with
              | Some w => [fmul (snd element) w]
              | None => []
              end)
           textProfile.

(** ** The order on floats *)

(** A key whose lexicographic order is the order [SFcompare] decides. *)
Definition fkey (x : float) : Z * Z * Z :=
  match x with
  | S754_zero _ => (0, 0, 0)
  | S754_nan => (0, 0, 0)
  | S754_infinity s => (if s then -2 else 2, 0, 0)
  | S754_finite s m e => if s then (-1, - e, - Zpos m) else (1, e, Zpos m)
  end.

Definition lex_lt (a b : Z * Z * Z) : Prop :=
  let '(a1, a2, a3) := a in
  let '(b1, b2, b3) := b in
  a1 < b1 \/ (a1 = b1 /\ (a2 < b2 \/ (a2 = b2 /\ a3 < b3))).

(** ** [identifyLanguage] *)

(** The similarity of a catalogue entry to a text profile. *)
Definition score (textProfile : TrigramProfile) (entry : LanguageProfile) : float :=
  fst (getCosineSimilarity textProfile (trigramProfile entry)).

(** The best score and its code, after one more entry. *)
Definition track (textProfile : TrigramProfile) (best : float * string)
           (entry : LanguageProfile) : float * string :=
  if fgt (score textProfile entry) (fst best)
  then (score textProfile entry, languageCode entry)
  else best.

(** What [identifyLanguage] returns for a best score and its code. *)
Definition render (best : float * string) : string :=
  if fgt (fst best) F0
  then (snd best ++ " (" ++ to_string (fst best) ++ ")")%string
  else snd best.

Definition tie_first : LanguageProfile :=
  {| languageCode := "en"; trigramProfile := [("ell"%string, F1)] |}.
Definition tie_second : LanguageProfile :=
  {| languageCode := "us"; trigramProfile := [("llo"%string, F1)] |}.
Definition apart_first : LanguageProfile :=
  {| languageCode := "fr"; trigramProfile := [("onj"%string, F1)] |}.
Definition apart_second : LanguageProfile :=
  {| languageCode := "de"; trigramProfile := [("gut"%string, F1)] |}.

(** ** UTF-8 and UTF-16 as the Unicode Standard defines them *)

(** The code points a UTF-8 string encodes; [None] when it is ill-formed:
    only the shortest form of a code point is accepted, no surrogate, nothing
    above U+10FFFF and no truncated sequence. *)
Fixpoint utf8_code_points (bs : list Z) : option (list Z) :=
  match bs with
  | [] => Some []
  | b0 :: r0 =>
    if b0 <? 0x80 then
      option_map (cons b0) (utf8_code_points r0)
    else if b0 <? 0xC2 then None
    else if b0 <? 0xE0 then
      match r0 with
      | b1 :: r1 =>
        if is_cont b1 then
          option_map (cons (Z.shiftl (b0 - 0xC0) 6 + (b1 - 0x80)))
                     (utf8_code_points r1)
        else None
      | _ => None
      end
    else if b0 <? 0xF0 then
      match r0 with
      | b1 :: b2 :: r2 =>
        if is_cont b1 && is_cont b2
           && (negb (b0 =? 0xE0) || (0xA0 <=? b1))
           && (negb (b0 =? 0xED) || (b1 <? 0xA0))
        then
          option_map
            (cons (Z.shiftl (b0 - 0xE0) 12 + Z.shiftl (b1 - 0x80) 6 + (b2 - 0x80)))
            (utf8_code_points r2)
        else None
      | _ => None
      end
    else if b0 <? 0xF5 then
      match r0 with
      | b1 :: b2 :: b3 :: r3 =>
        if is_cont b1 && is_cont b2 && is_cont b3
           && (negb (b0 =? 0xF0) || (0x90 <=? b1))
           && (negb (b0 =? 0xF4) || (b1 <? 0x90))
        then
          option_map
            (cons (Z.shiftl (b0 - 0xF0) 18 + Z.shiftl (b1 - 0x80) 12
                   + Z.shiftl (b2 - 0x80) 6 + (b3 - 0x80)))
            (utf8_code_points r3)
        else None
      | _ => None
      end
    else None
  end.

(** Well-formed UTF-8 to UTF-16: every code point is written as its code
    units; [None] on ill-formed UTF-8. *)
Definition utf8_to_utf16 (bs : list Z) : option wstring :=
  option_map (flat_map utf16_units) (utf8_code_points bs).

(** Well-formed UTF-16 to UTF-8; [None] on an unpaired surrogate. *)
Fixpoint utf16_to_utf8 (ws : wstring) : option (list Z) :=
  match ws with
  | [] => Some []
  | w :: r =>
    if is_high_surrogate w then
      match r with
      | w2 :: r' =>
        if is_low_surrogate w2 then
          option_map
            (app (utf8_bytes (0x10000 + Z.shiftl (w - 0xD800) 10 + (w2 - 0xDC00))))
            (utf16_to_utf8 r')
        else None
      | [] => None
      end
    else if is_low_surrogate w then None
    else if (0 <=? w) && (w <? 0x10000) then
      option_map (app (utf8_bytes w)) (utf16_to_utf8 r)
    else None
  end.

(** One step of [utf8_to_utf16]: the first code point and the bytes after
    it. *)
Definition utf8_step (bs : list Z) : option (Z * list Z) :=
  match bs with
  | [] => None
  | b0 :: r0 =>
    if b0 <? 0x80 then Some (b0, r0)
    else if b0 <? 0xC2 then None
    else if b0 <? 0xE0 then
      match r0 with
      | b1 :: r1 =>
        if is_cont b1 then Some (Z.shiftl (b0 - 0xC0) 6 + (b1 - 0x80), r1) else None
      | _ => None
      end
    else if b0 <? 0xF0 then
      match r0 with
      | b1 :: b2 :: r2 =>
        if is_cont b1 && is_cont b2
           && (negb (b0 =? 0xE0) || (0xA0 <=? b1))
           && (negb (b0 =? 0xED) || (b1 <? 0xA0))
        then Some (Z.shiftl (b0 - 0xE0) 12 + Z.shiftl (b1 - 0x80) 6 + (b2 - 0x80), r2)
        else None
      | _ => None
      end
    else if b0 <? 0xF5 then
      match r0 with
      | b1 :: b2 :: b3 :: r3 =>
        if is_cont b1 && is_cont b2 && is_cont b3
           && (negb (b0 =? 0xF0) || (0x90 <=? b1))
           && (negb (b0 =? 0xF4) || (b1 <? 0x90))
        then Some (Z.shiftl (b0 - 0xF0) 18 + Z.shiftl (b1 - 0x80) 12
                   + Z.shiftl (b2 - 0x80) 6 + (b3 - 0x80), r3)
        else None
      | _ => None
      end
    else None
  end.

(** Well-formed UTF-8 byte sequences, as the Unicode Standard tabulates
    them (Table 3-7). *)
Inductive well_formed_utf8 : list Z -> Prop :=
| wf_empty : well_formed_utf8 []
| wf_one (b0 : Z) (r : list Z) :
    0 <= b0 <= 0x7F -> well_formed_utf8 r -> well_formed_utf8 (b0 :: r)
| wf_two (b0 b1 : Z) (r : list Z) :
    0xC2 <= b0 <= 0xDF -> 0x80 <= b1 <= 0xBF ->
    well_formed_utf8 r -> well_formed_utf8 (b0 :: b1 :: r)
| wf_three (b0 b1 b2 : Z) (r : list Z) :
    (b0 = 0xE0 /\ 0xA0 <= b1 <= 0xBF) \/ (0xE1 <= b0 <= 0xEC /\ 0x80 <= b1 <= 0xBF)
    \/ (b0 = 0xED /\ 0x80 <= b1 <= 0x9F) \/ (0xEE <= b0 <= 0xEF /\ 0x80 <= b1 <= 0xBF) ->
    0x80 <= b2 <= 0xBF ->
    well_formed_utf8 r -> well_formed_utf8 (b0 :: b1 :: b2 :: r)
| wf_four (b0 b1 b2 b3 : Z) (r : list Z) :
    (b0 = 0xF0 /\ 0x90 <= b1 <= 0xBF) \/ (0xF1 <= b0 <= 0xF3 /\ 0x80 <= b1 <= 0xBF)
    \/ (b0 = 0xF4 /\ 0x80 <= b1 <= 0x8F) ->
    0x80 <= b2 <= 0xBF -> 0x80 <= b3 <= 0xBF ->
    well_formed_utf8 r -> well_formed_utf8 (b0 :: b1 :: b2 :: b3 :: r).

(** ** Lines *)

(** A line with a byte that no UTF-8 sequence contains. *)
Definition malformed_line : string := string_of_bytes [97; 98; 99; 0xFF; 100].

(** ** Letter case *)

(** The small letter of an ASCII capital; every other character is kept. *)
Definition lower_char (c : ascii) : ascii :=
  match c with
  | "A" => "a" | "B" => "b" | "C" => "c" | "D" => "d" | "E" => "e" | "F" => "f"
  | "G" => "g" | "H" => "h" | "I" => "i" | "J" => "j" | "K" => "k" | "L" => "l"
  | "M" => "m" | "N" => "n" | "O" => "o" | "P" => "p" | "Q" => "q" | "R" => "r"
  | "S" => "s" | "T" => "t" | "U" => "u" | "V" => "v" | "W" => "w" | "X" => "x"
  | "Y" => "y" | "Z" => "z"
  | _ => c
  end%char.

(** A line with its ASCII capitals turned into small letters. *)

Fixpoint ascii_lowercase (s : string) : string :=
  match s with
  | EmptyString => EmptyString
  | String c s' => String (lower_char c) (ascii_lowercase s')
  end.

(** ** Counting in binary32 *)

(** [v] is the float a counter holds after [n] occurrences. *)
Definition count_rep (n : Z) (v : float) : Prop :=
  (1 <= n < 2 ^ 24
   /\ exists (m : positive) (k : Z),
      v = S754_finite false m (- k) /\ 0 <= k <= 23
      /\ 2 ^ 23 <= Zpos m < 2 ^ 24 /\ Zpos m = n * 2 ^ k)
  \/ (2 ^ 24 <= n /\ v = S754_finite false 8388608 1).

(** ** [buildTrigramProfile]: the trigrams of a text and their counts *)

(** The windows of three consecutive items, from left to right. *)
Fixpoint windows3 {A : Type} (l : list A) : list (list A) :=
  match l with
  | [] => []
  | a :: t =>
    match t with
    | b :: c :: _ => [a; b; c] :: windows3 t
    | _ => []
    end
  end.

Fixpoint all_ok {A : Type} (rs : list (result A)) : result (list A) :=
  match rs with
  | [] => Ok []
  | r :: rs' => x <- r ;; xs <- all_ok rs' ;; Ok (x :: xs)
  end.

(** The trigrams of one line: the line without its final carriage return is
    converted, its units are lowered, and every window of three units is
    converted back. *)
Definition line_trigrams (line : string) : result (list string) :=
  unicodeString <- from_bytes (strip_cr line) ;;
  all_ok (map to_bytes (windows3 (map tolower unicodeString))).

(** The trigrams of a text: those of its lines, line after line. *)
Fixpoint text_trigrams (text : Text) : result (list string) :=
  match text with
  | [] => Ok []
  | line :: text' =>
    ts <- line_trigrams line ;; ts' <- text_trigrams text' ;; Ok (ts ++ ts')
  end.

(** One more occurrence of [t]. *)
Definition bump (p : TrigramProfile) (t : string) : TrigramProfile :=
  match find t p with
  | Some v => assign t (fadd v F1) p
  | None => insert t F1 p
  end.

Definition occurrences (t : string) (ts : list string) : nat :=
  count_occ string_dec ts t.

(** A counter after one more occurrence; [None] is an absent key. *)
Definition counted (o : option float) : option float :=
  Some (match o with Some v => fadd v F1 | None => F1 end).

(** The letter a followed by U+1F600. *)
Definition astral_line : string := string_of_bytes [97; 0xF0; 0x9F; 0x98; 0x80].

Definition sample_text : Text :=
  ["Hello" ++ String "013"%char EmptyString; "hell"; "hi"; ""]%string.

(** ** [addLanguage] *)

Definition gua_csv : string := "resources/trigrams/gua.csv".

(** The rows handed to [writeCSV]: a trigram and its count, as an integer in
    decimal. *)
Definition csv_rows (p : TrigramProfile) : CSVData :=
  map (fun element => [fst element; decimal (int_of_float (snd element))]) p.

Definition read_sample (path : string) : bool * Text :=
  if String.eqb path "corpus.txt" then (true, sample_text) else (false, []).

Definition read_malformed (path : string) : bool * Text :=
  (true, ["hello"%string; malformed_line]).

Definition write_succeeds (path : string) (rows : CSVData) : bool := true.

(** ** [buildTrigramProfile] on lines of code points below U+10000 *)

Definition scalar_value (cp : Z) : Prop :=
  0 <= cp < 0xD800 \/ 0xE000 <= cp < 0x110000.

Definition bmp_scalar (cp : Z) : Prop :=
  0 <= cp < 0xD800 \/ 0xE000 <= cp < 0x10000.

(** The code points of a line, its final carriage return removed. *)
Definition line_code_points (line : string) : option (list Z) :=
  utf8_code_points (bytes_of_string (strip_cr line)).

(** A line that is well-formed UTF-8 with no code point above U+FFFF. *)
Definition bmp_line (line : string) : Prop :=
  exists cps, line_code_points line = Some cps
              /\ Forall (fun cp => cp < 0x10000) cps.

(** The key of a window of code points: their UTF-8 form. *)
Definition trigram_key (window : list Z) : string :=
  string_of_bytes (flat_map utf8_bytes window).

(** The trigrams of a line: the keys of the windows of three of its lowered
    code points. *)
Definition line_keys (line : string) : list string :=
  match line_code_points line with
  | Some cps => map trigram_key (windows3 (map tolower cps))
  | None => []
  end.

(** The trigrams of a text: those of its lines, line after line. *)
Definition text_keys (text : Text) : list string := flat_map line_keys text.

(** ** Line endings, letter case and line order *)

(** A line with a carriage return put at its end. *)
Definition add_cr (line : string) : string :=
  (line ++ String "013"%char EmptyString)%string.

(** ** Invalid and truncated sequences *)

(** The beginning of a byte sequence is invalid: its first byte begins no
    UTF-8 sequence, or it is a lead byte, the bytes its sequence needs are
    all there, and one of them is not a continuation byte or makes the
    sequence overlong or pass U+10FFFF. *)
Inductive invalid_sequence : list Z -> Prop :=
| invalid_first (b0 : Z) (r : list Z) :
    0x80 <= b0 <= 0xC1 \/ 0xF5 <= b0 -> invalid_sequence (b0 :: r)
| invalid_of_two (b0 b1 : Z) (r : list Z) :
    0xC2 <= b0 <= 0xDF -> ~ 0x80 <= b1 <= 0xBF -> invalid_sequence (b0 :: b1 :: r)
| invalid_of_three (b0 b1 b2 : Z) (r : list Z) :
    0xE0 <= b0 <= 0xEF ->
    ~ 0x80 <= b1 <= 0xBF \/ (b0 = 0xE0 /\ b1 < 0xA0) \/ ~ 0x80 <= b2 <= 0xBF ->
    invalid_sequence (b0 :: b1 :: b2 :: r)
| invalid_of_four (b0 b1 b2 b3 : Z) (r : list Z) :
    0xF0 <= b0 <= 0xF4 ->
    ~ 0x80 <= b1 <= 0xBF \/ (b0 = 0xF0 /\ b1 < 0x90) \/ (b0 = 0xF4 /\ 0x90 <= b1)
    \/ ~ 0x80 <= b2 <= 0xBF \/ ~ 0x80 <= b3 <= 0xBF ->
    invalid_sequence (b0 :: b1 :: b2 :: b3 :: r).




(** ** Well-formed UTF-16 *)

(** Every high surrogate is followed by a low one, and every low one follows
    a high one. *)
Inductive paired : wstring -> Prop :=
| paired_nil : paired []
| paired_one (u : Z) (r : wstring) :
    is_high_surrogate u = false -> is_low_surrogate u = false ->
    paired r -> paired (u :: r)
| paired_two (h l : Z) (r : wstring) :
    is_high_surrogate h = true -> is_low_surrogate l = true ->
    paired r -> paired (h :: l :: r).

(** U+1F600, then the letters a and b. *)
Definition astral_first_line : string := string_of_bytes [0xF0; 0x9F; 0x98; 0x80; 97; 98].

(** The letters a and b, then U+1F600. *)
Definition astral_last_line : string := string_of_bytes [97; 98; 0xF0; 0x9F; 0x98; 0x80].

(** ** Letters outside ASCII *)

(** É T É and é t é, in UTF-8. *)
Definition upper_accented_line : string := string_of_bytes [0xC3; 0x89; 0x54; 0xC3; 0x89].
Definition lower_accented_line : string := string_of_bytes [0xC3; 0xA9; 0x74; 0xC3; 0xA9].

Definition read_astral (path : string) : bool * Text :=
  (true, [astral_first_line]).

(** ** The numeral of a score *)








(** ** [normalizeTrigramProfile]: the sum of the squares *)



(** * Properties *)

(** ** Tactics *)

Ltac zbool :=
  repeat match goal with
         | H : _ && _ = true |- _ => apply andb_true_iff in H; destruct H
         | H : _ && _ = false |- _ => apply andb_false_iff in H; destruct H
         | H : _ || _ = true |- _ => apply orb_true_iff in H; destruct H
         | H : _ || _ = false |- _ => apply orb_false_iff in H; destruct H
         | H : negb _ = true |- _ => apply negb_true_iff in H
         | H : negb _ = false |- _ => apply negb_false_iff in H
         | H : (_ <? _) = true |- _ => apply Z.ltb_lt in H
         | H : (_ <? _) = false |- _ => apply Z.ltb_ge in H
         | H : (_ <=? _) = true |- _ => apply Z.leb_le in H
         | H : (_ <=? _) = false |- _ => apply Z.leb_gt in H
         | H : (_ =? _) = true |- _ => apply Z.eqb_eq in H
         | H : (_ =? _) = false |- _ => apply Z.eqb_neq in H
         end.

Ltac zcases :=
  repeat match goal with
         | |- context [?a <? ?b] => destruct (Z.ltb_spec a b); try (exfalso; lia)
         | |- context [?a <=? ?b] => destruct (Z.leb_spec a b); try (exfalso; lia)
         | |- context [?a =? ?b] => destruct (Z.eqb_spec a b); try (exfalso; lia)
         end.

Ltac shifts := rewrite ?Z.shiftl_mul_pow2 by lia;
               change (2 ^ 6) with 64; change (2 ^ 12) with 4096;
               change (2 ^ 18) with 262144; change (2 ^ 10) with 1024.

Ltac bits :=
  change 0x3F with (Z.ones 6); change 0x3FF with (Z.ones 10);
  rewrite ?Z.land_ones by lia;
  rewrite ?Z.shiftr_div_pow2 by lia;
  rewrite ?Z.shiftl_mul_pow2 by lia;
  change (2 ^ 6) with 64; change (2 ^ 12) with 4096;
  change (2 ^ 18) with 262144; change (2 ^ 10) with 1024.

Ltac zdiv := Z.div_mod_to_equations; lia.

Ltac zcases_div :=
  repeat match goal with
         | |- context [?a <? ?b] => destruct (Z.ltb_spec a b); try (exfalso; zdiv)
         | |- context [?a <=? ?b] => destruct (Z.leb_spec a b); try (exfalso; zdiv)
         | |- context [?a =? ?b] => destruct (Z.eqb_spec a b); try (exfalso; zdiv)
         end.

Lemma some_inj {A : Type} (a b : A) : Some a = Some b -> a = b.
Proof. intros H. congruence. Qed.

(** ** The embedding at work *)

Example from_bytes_abc : from_bytes "aBc" = Ok [97; 66; 99].
Proof. reflexivity. Qed.

Example build_hello :
  buildTrigramProfile ["Hello"; "hell"; "hi"]%string
  = Ok [("ell", fadd F1 F1); ("hel", fadd F1 F1); ("llo", F1)]%string.
Proof. reflexivity. Qed.

Example to_string_half : to_string (fdiv F1 (fadd F1 F1)) = "0.500000"%string.
Proof. reflexivity. Qed.

Example to_string_third : to_string (fdiv F1 (fadd (fadd F1 F1) F1)) = "0.333333"%string.
Proof. reflexivity. Qed.

Example identify_demo :
  fst (identifyLanguage ["hello"]%string
         [ {| languageCode := "fr"; trigramProfile := [("onj"%string, F1)] |};
           {| languageCode := "en"; trigramProfile := [("ell"%string, F1)] |} ])
  = Ok "en (0.577350)"%string.
Proof. reflexivity. Qed.

(** ** Strings and bytes *)

Lemma length_app_char (s : string) (c : ascii) :
  String.length (s ++ String c EmptyString) = S (String.length s).
Proof. induction s as [| a s IH]; simpl; [| rewrite IH]; reflexivity. Qed.

Lemma get_app_char (s : string) (c : ascii) :
  String.get (String.length s) (s ++ String c EmptyString) = Some c.
Proof. induction s as [| a s IH]; simpl; [reflexivity | exact IH]. Qed.

Lemma substring_app_char (s : string) (c : ascii) :
  String.substring 0 (String.length s) (s ++ String c EmptyString) = s.
Proof. induction s as [| a s IH]; simpl; [| rewrite IH]; reflexivity. Qed.

Lemma bytes_of_string_app (s t : string) :
  bytes_of_string (s ++ t) = bytes_of_string s ++ bytes_of_string t.
Proof. induction s as [| c s IH]; simpl; [| rewrite IH]; reflexivity. Qed.

Lemma bytes_of_string_nonneg (s : string) :
  Forall (fun b => 0 <= b) (bytes_of_string s).
Proof.
  induction s as [| c s IH]; simpl; constructor; [| exact IH].
  unfold byte_of_ascii. apply N2Z.is_nonneg.
Qed.

Lemma bytes_of_string_of_bytes (bs : list Z) :
  Forall (fun b => 0 <= b < 256) bs -> bytes_of_string (string_of_bytes bs) = bs.
Proof.
  induction 1 as [| b bs Hb _ IH]; [reflexivity |].
  cbn [string_of_bytes bytes_of_string]. rewrite IH. f_equal.
  unfold byte_of_ascii, ascii_of_byte.
  rewrite N_ascii_embedding by lia. lia.
Qed.

Lemma string_of_bytes_of_string (s : string) :
  string_of_bytes (bytes_of_string s) = s.
Proof.
  induction s as [| c s IH]; [reflexivity |].
  cbn [string_of_bytes bytes_of_string]. rewrite IH. f_equal.
  unfold byte_of_ascii, ascii_of_byte. rewrite N2Z.id. apply ascii_N_embedding.
Qed.

Lemma bytes_of_string_range (s : string) :
  Forall (fun b => 0 <= b < 256) (bytes_of_string s).
Proof.
  induction s as [| c s IH]; simpl; constructor; [| exact IH].
  unfold byte_of_ascii.
  pose proof (N_ascii_bounded c) as Hb. lia.
Qed.




(** ** The map operations *)

Lemma find_insert_absent (k k' : string) (v : float) (m : TrigramProfile) :
  find k m = None ->
  find k' (insert k v m) = if String.eqb k' k then Some v else find k' m.
Proof.
  induction m as [| [k0 v0] m IH]; simpl; intros Hk.
  - reflexivity.
  - destruct (String.eqb_spec k k0) as [-> | Hne]; [discriminate |].
    destruct (String.compare k k0) eqn:Hc.
    + apply String.compare_eq_iff in Hc. contradiction.
    + simpl. reflexivity.
    + simpl. rewrite (IH Hk).
      destruct (String.eqb_spec k' k0) as [-> | Hne']; [| reflexivity].
      destruct (String.eqb_spec k0 k) as [-> | _]; [contradiction | reflexivity].
Qed.

Lemma find_assign (k k' : string) (v : float) (m : TrigramProfile) :
  find k' (assign k v m) =
  if String.eqb k' k
  then match find k m with Some _ => Some v | None => None end
  else find k' m.
Proof.
  induction m as [| [k0 v0] m IH]; simpl.
  - destruct (String.eqb k' k); reflexivity.
  - destruct (String.eqb_spec k k0) as [-> | Hne]; simpl.
    + destruct (String.eqb_spec k' k0); reflexivity.
    + rewrite IH.
      destruct (String.eqb_spec k' k0) as [-> | Hne'].
      * destruct (String.eqb_spec k0 k) as [-> | _]; [contradiction | reflexivity].
      * reflexivity.
Qed.

Lemma index_present (k : string) (v : float) (m : TrigramProfile) :
  find k m = Some v -> index k m = (v, m).
Proof. intros H. unfold index. rewrite H. reflexivity. Qed.

Lemma compare_Gt_Lt (a b : string) : String.compare a b = Gt -> String.compare b a = Lt.
Proof. intros H. rewrite String.compare_antisym, H. reflexivity. Qed.

Lemma sorted_insert (k : string) (v : float) (m : TrigramProfile) :
  sorted m -> sorted (insert k v m).
Proof.
  induction m as [| [k0 v0] m IH]; simpl; intros Hs.
  - auto.
  - destruct (String.compare k k0) eqn:Hc.
    + exact Hs.
    + simpl. auto.
    + destruct Hs as [Hhd Htl]. specialize (IH Htl).
      change (sorted ((k0, v0) :: insert k v m)).
      simpl. split; [| exact IH].
      destruct m as [| [k1 v1] m']; simpl.
      * apply compare_Gt_Lt. exact Hc.
      * destruct (String.compare k k1); auto using compare_Gt_Lt.
Qed.

Lemma sorted_assign (k : string) (v : float) (m : TrigramProfile) :
  sorted m -> sorted (assign k v m).
Proof.
  induction m as [| [k0 v0] m IH]; simpl; intros Hs.
  - exact I.
  - destruct Hs as [Hhd Htl]. specialize (IH Htl).
    destruct (String.eqb k k0).
    + simpl. auto.
    + change (sorted ((k0, v0) :: assign k v m)). simpl. split; [| exact IH].
      destruct m as [| [k1 v1] m']; simpl; [exact I |].
      destruct (String.eqb k k1); exact Hhd.
Qed.

(** ** [getCosineSimilarity] *)

Lemma cosine_step_spec (s : float) (l : TrigramProfile) (element : string * float) :
  cosine_step (s, l) element =
  (match find (fst element) l with
   | Some w => fadd s (fmul (snd element) w)
   | None => s
   end, l).
Proof.
  unfold cosine_step. destruct (find (fst element) l) as [w |] eqn:Hf.
  - rewrite (index_present _ _ _ Hf). reflexivity.
  - reflexivity.
Qed.

Lemma cosine_loop_spec (t l : TrigramProfile) (s : float) :
  fold_left cosine_step t (s, l) = (fold_left fadd (shared_products t l) s, l).
Proof.
  revert s. induction t as [| element t IH]; intros s; cbn [fold_left].
  - reflexivity.
  - rewrite cosine_step_spec, IH.
    unfold shared_products. cbn [flat_map]. rewrite fold_left_app.
    destruct (find (fst element) l); reflexivity.
Qed.

Lemma getCosineSimilarity_spec (t l : TrigramProfile) :
  getCosineSimilarity t l = (fold_left fadd (shared_products t l) F0, (t, l)).
Proof.
  unfold getCosineSimilarity. rewrite cosine_loop_spec. reflexivity.
Qed.

Lemma shared_products_ext (t l l' : TrigramProfile) :
  (forall k v, In (k, v) t -> find k l' = find k l) ->
  shared_products t l' = shared_products t l.
Proof.
  unfold shared_products. induction t as [| [k v] t IH]; simpl; intros H.
  - reflexivity.
  - rewrite (H k v) by (left; reflexivity).
    rewrite IH; [reflexivity |]. intros k' v' Hin. apply (H k' v'). right. exact Hin.
Qed.

(** C2: the score is the sum, taken in key order from [0.F], of
    [textProfile[k] * languageProfile[k]] over the keys [k] of [textProfile]
    that [languageProfile] has too; what [languageProfile] holds at other keys
    does not change the score. *)
Theorem getCosineSimilarity_sum_of_shared_products (textProfile languageProfile : TrigramProfile) :
  fst (getCosineSimilarity textProfile languageProfile)
  = fold_left fadd (shared_products textProfile languageProfile) F0
  /\ (forall other : TrigramProfile,
      (forall k v, In (k, v) textProfile -> find k other = find k languageProfile) ->
      fst (getCosineSimilarity textProfile other)
      = fst (getCosineSimilarity textProfile languageProfile)).
Proof.
  split.
  - rewrite getCosineSimilarity_spec. reflexivity.
  - intros other H. rewrite !getCosineSimilarity_spec. simpl.
    rewrite (shared_products_ext _ _ _ H). reflexivity.
Qed.

Lemma getCosineSimilarity_sum_of_shared_products_witness :
  fst (getCosineSimilarity [("abc", F1); ("bcd", fadd F1 F1)]%string
                           [("bcd", F1); ("xyz", F1)]%string)
  = fadd F0 (fmul (fadd F1 F1) F1)
  /\ fst (getCosineSimilarity [("abc", F1); ("bcd", fadd F1 F1)]%string
                              [("bcd", F1)]%string)
     = fst (getCosineSimilarity [("abc", F1); ("bcd", fadd F1 F1)]%string
                                [("bcd", F1); ("xyz", F1)]%string).
Proof.
  destruct (getCosineSimilarity_sum_of_shared_products
              [("abc", F1); ("bcd", fadd F1 F1)]%string
              [("bcd", F1); ("xyz", F1)]%string) as [Hsum Hother].
  split; [exact Hsum |].
  apply Hother. intros k v [H | [H | []]]; inversion H; reflexivity.
Defined.

(** ** The order on floats *)

Lemma fgt_iff (a b : float) :
  fgt a b = true <-> is_nan a = false /\ is_nan b = false /\ lex_lt (fkey b) (fkey a).
Proof.
  unfold fgt, SFltb, SFcompare.
  destruct a as [sa | sa | | sa ma ea], b as [sb | sb | | sb mb eb]; simpl;
    try destruct sa; try destruct sb; simpl;
    try (split; [discriminate | intros (? & ? & ?); try discriminate; lia]);
    try (split; [intros _; repeat split; lia | reflexivity]);
    change (Pos.compare_cont Eq ?p ?q) with (Pos.compare p q);
    destruct (Z.compare_spec eb ea); try destruct (Pos.compare_spec mb ma); simpl;
    try (split; [discriminate | intros (? & ? & ?); lia]);
    try (split; [intros _; repeat split; lia | reflexivity]).
Qed.

Lemma fgt_false_trans (s m m' : float) :
  fgt s m = false -> fgt m' m = true -> fgt s m' = false.
Proof.
  intros Hs Hm. destruct (fgt s m') eqn:Hsm'; [| reflexivity].
  apply fgt_iff in Hm. apply fgt_iff in Hsm'.
  assert (Hc : fgt s m = true).
  { apply fgt_iff. destruct Hm as (_ & Hm2 & Hm3), Hsm' as (Hs1 & _ & Hs3).
    repeat split; try assumption.
    unfold lex_lt in *. destruct (fkey s) as [[? ?] ?], (fkey m) as [[? ?] ?],
      (fkey m') as [[? ?] ?]. lia. }
  congruence.
Qed.

Lemma fgt_trans (a b c : float) :
  fgt a b = true -> fgt b c = true -> fgt a c = true.
Proof.
  intros Hab Hbc. apply fgt_iff in Hab. apply fgt_iff in Hbc. apply fgt_iff.
  destruct Hab as (Ha & _ & Hab), Hbc as (_ & Hc & Hbc).
  repeat split; try assumption.
  unfold lex_lt in *. destruct (fkey a) as [[? ?] ?], (fkey b) as [[? ?] ?],
    (fkey c) as [[? ?] ?]. lia.
Qed.

Lemma fgt_irrefl (a : float) : fgt a a = false.
Proof.
  destruct (fgt a a) eqn:H; [| reflexivity].
  apply fgt_iff in H. destruct H as (_ & _ & H).
  unfold lex_lt in H. destruct (fkey a) as [[? ?] ?]. lia.
Qed.

(** ** The numeral of a score *)















(** ** [identifyLanguage] *)

Lemma identify_loop (tp : TrigramProfile) (languages : LanguageProfiles)
      (mx : float) (code : string) :
  fold_left identify_step languages (tp, mx, code)
  = (tp, fst (fold_left (track tp) languages (mx, code)),
     snd (fold_left (track tp) languages (mx, code))).
Proof.
  revert mx code. induction languages as [| entry languages IH]; intros mx code.
  - reflexivity.
  - cbn [fold_left]. unfold identify_step at 2, track at 2 4, score.
    rewrite getCosineSimilarity_spec. cbn [fst snd].
    destruct (fgt _ mx); apply IH.
Qed.

Lemma identifyLanguage_built (text : Text) (languages : LanguageProfiles)
      (p : TrigramProfile) :
  buildTrigramProfile text = Ok p ->
  identifyLanguage text languages
  = (Ok (render (fold_left (track (normalizeTrigramProfile p)) languages
                           (F0, "---"%string))),
     languages).
Proof.
  intros Hb. unfold identifyLanguage. rewrite Hb, identify_loop. reflexivity.
Qed.

Lemma track_no_better (tp : TrigramProfile) (languages : LanguageProfiles)
      (best : float * string) :
  (forall e, In e languages -> fgt (score tp e) (fst best) = false) ->
  fold_left (track tp) languages best = best.
Proof.
  induction languages as [| entry languages IH]; intros H; cbn [fold_left].
  - reflexivity.
  - unfold track at 2. rewrite (H entry) by (left; reflexivity).
    apply IH. intros e He. apply H. right. exact He.
Qed.

Lemma track_below (tp : TrigramProfile) (s : float) (languages : LanguageProfiles)
      (best : float * string) :
  fgt s (fst best) = true ->
  (forall x, In x languages -> fgt s (score tp x) = true) ->
  fgt s (fst (fold_left (track tp) languages best)) = true.
Proof.
  revert best. induction languages as [| entry languages IH]; intros best Hb H;
    cbn [fold_left].
  - exact Hb.
  - apply IH.
    + unfold track. destruct (fgt (score tp entry) (fst best)); cbn [fst].
      * apply H. left. reflexivity.
      * exact Hb.
    + intros x Hx. apply H. right. exact Hx.
Qed.

Lemma track_first_maximum (tp : TrigramProfile) (l1 l2 : LanguageProfiles)
      (e : LanguageProfile) (best : float * string) :
  fgt (score tp e) (fst best) = true ->
  (forall x, In x l1 -> fgt (score tp e) (score tp x) = true) ->
  (forall x, In x l2 -> fgt (score tp x) (score tp e) = false) ->
  fold_left (track tp) (l1 ++ e :: l2) best = (score tp e, languageCode e).
Proof.
  intros Hb H1 H2. rewrite fold_left_app. cbn [fold_left].
  unfold track at 2. rewrite (track_below tp _ l1 best Hb H1).
  apply track_no_better. exact H2.
Qed.

Lemma track_maximum (tp : TrigramProfile) (languages : LanguageProfiles)
      (best : float * string) :
  (fold_left (track tp) languages best = best
   /\ forall e, In e languages -> fgt (score tp e) (fst best) = false)
  \/ (exists w, In w languages
      /\ fold_left (track tp) languages best = (score tp w, languageCode w)
      /\ fgt (score tp w) (fst best) = true
      /\ forall e, In e languages -> fgt (score tp e) (score tp w) = false).
Proof.
  revert best. induction languages as [| h languages IH]; intros best.
  - left. split; [reflexivity | intros e []].
  - cbn [fold_left]. unfold track at 2 4.
    destruct (fgt (score tp h) (fst best)) eqn:Hh.
    + right. destruct (IH (score tp h, languageCode h)) as [[Heq Hall] | (w & Hw & Heq & Hgt & Hall)].
      * exists h. rewrite Heq. cbn [fst] in Hall.
        repeat split; auto using in_eq.
        intros e [<- | He]; [apply fgt_irrefl | auto].
      * exists w. rewrite Heq. cbn [fst] in Hgt.
        repeat split; auto using in_cons.
        -- eapply fgt_trans; eassumption.
        -- intros e [<- | He]; [| auto].
           destruct (fgt (score tp h) (score tp w)) eqn:Hc; [| reflexivity].
           pose proof (fgt_trans _ _ _ Hc Hgt) as Habs.
           rewrite fgt_irrefl in Habs. discriminate.
    + destruct (IH best) as [[Heq Hall] | (w & Hw & Heq & Hgt & Hall)].
      * left. split; [exact Heq |]. intros e [<- | He]; auto.
      * right. exists w. repeat split; auto using in_cons.
        intros e [<- | He]; [| auto].
        eapply fgt_false_trans; eassumption.
Qed.

(** C3, as the code has it: when the text profile builds, the entry whose
    score is above 0, above the score of every earlier entry and not below
    the score of any later entry gives the code that is returned, followed
    by that score; so among entries with equal best scores above 0 the
    first one wins. *)
Theorem identifyLanguage_first_best_wins
        (text : Text) (p : TrigramProfile) (l1 l2 : LanguageProfiles)
        (e : LanguageProfile) :
  buildTrigramProfile text = Ok p ->
  fgt (score (normalizeTrigramProfile p) e) F0 = true ->
  (forall x, In x l1 ->
             fgt (score (normalizeTrigramProfile p) e)
                 (score (normalizeTrigramProfile p) x) = true) ->
  (forall x, In x l2 ->
             fgt (score (normalizeTrigramProfile p) x)
                 (score (normalizeTrigramProfile p) e) = false) ->
  fst (identifyLanguage text (l1 ++ e :: l2))
  = Ok (languageCode e ++ " ("
        ++ to_string (score (normalizeTrigramProfile p) e) ++ ")")%string.
Proof.
  intros Hb Hpos H1 H2.
  rewrite (identifyLanguage_built _ _ _ Hb). cbn [fst].
  rewrite (track_first_maximum _ l1 l2 e (F0, "---"%string) Hpos H1 H2).
  unfold render. cbn [fst snd]. rewrite Hpos. reflexivity.
Qed.

Lemma identifyLanguage_first_best_wins_witness :
  score (normalizeTrigramProfile [("ell", F1); ("hel", F1); ("llo", F1)]%string) tie_first
  = score (normalizeTrigramProfile [("ell", F1); ("hel", F1); ("llo", F1)]%string) tie_second
  /\ fst (identifyLanguage ["hello"%string] [tie_first; tie_second])
     = Ok "en (0.577350)"%string.
Proof.
  split; [reflexivity |].
  apply (identifyLanguage_first_best_wins
           ["hello"%string] [("ell", F1); ("hel", F1); ("llo", F1)]%string
           [] [tie_second] tie_first).
  - reflexivity.
  - reflexivity.
  - intros x [].
  - intros x [<- | []]. reflexivity.
Defined.

(** C3 as stated fails: two entries with identical scores, both 0, and the
    code returned is the sentinel, not the first entry's. *)
Lemma identifyLanguage_tie_at_zero :
  score (normalizeTrigramProfile [("ell", F1); ("hel", F1); ("llo", F1)]%string) apart_first
  = score (normalizeTrigramProfile [("ell", F1); ("hel", F1); ("llo", F1)]%string) apart_second
  /\ buildTrigramProfile ["hello"%string]
     = Ok [("ell", F1); ("hel", F1); ("llo", F1)]%string
  /\ fst (identifyLanguage ["hello"%string] [apart_first; apart_second])
     = Ok "---"%string
  /\ fst (identifyLanguage ["hello"%string] [apart_first; apart_second])
     <> Ok (languageCode apart_first).
Proof.
  repeat split; try reflexivity. discriminate.
Qed.




(** C9: [getCosineSimilarity] hands back both profiles as it received them,
    and [identifyLanguage] leaves the catalogue as it found it, whether it
    returns or throws. *)
Theorem similarity_and_identification_read_only :
  (forall textProfile languageProfile : TrigramProfile,
      snd (getCosineSimilarity textProfile languageProfile)
      = (textProfile, languageProfile))
  /\ (forall (text : Text) (languages : LanguageProfiles),
         snd (identifyLanguage text languages) = languages).
Proof.
  split.
  - intros t l. rewrite getCosineSimilarity_spec. reflexivity.
  - intros text languages. unfold identifyLanguage.
    destruct (buildTrigramProfile text) as [p | e]; [| reflexivity].
    rewrite identify_loop. reflexivity.
Qed.

(** ** The converter *)

Lemma utf8_code_points_unfold (bs : list Z) :
  utf8_code_points bs =
  match bs with
  | [] => Some []
  | _ :: _ =>
    match utf8_step bs with
    | Some (cp, r) => option_map (cons cp) (utf8_code_points r)
    | None => None
    end
  end.
Proof.
  destruct bs as [| b0 r0]; [reflexivity |].
  cbn [utf8_code_points utf8_step].
  repeat match goal with
         | |- context [if ?c then _ else _] => destruct c
         | |- context [match ?l with [] => _ | _ :: _ => _ end] => destruct l
         end; reflexivity.
Qed.

Lemma utf8_to_utf16_unfold (bs : list Z) :
  utf8_to_utf16 bs =
  match bs with
  | [] => Some []
  | _ :: _ =>
    match utf8_step bs with
    | Some (cp, r) => option_map (app (utf16_units cp)) (utf8_to_utf16 r)
    | None => None
    end
  end.
Proof.
  unfold utf8_to_utf16. rewrite utf8_code_points_unfold.
  destruct bs as [| b0 r0]; [reflexivity |].
  destruct (utf8_step (b0 :: r0)) as [[cp r] |]; [| reflexivity].
  destruct (utf8_code_points r); reflexivity.
Qed.

Lemma utf8_step_shorter (bs : list Z) (cp : Z) (r : list Z) :
  utf8_step bs = Some (cp, r) -> (List.length r < List.length bs)%nat.
Proof.
  destruct bs as [| b0 r0]; [discriminate |].
  cbn [utf8_step].
  repeat match goal with
         | |- context [if ?c then _ else _] => destruct c
         | |- context [match ?l with [] => _ | _ :: _ => _ end] => destruct l
         end; intros H; inversion H; subst; simpl; lia.
Qed.

Lemma utf8_induction (P : list Z -> Prop) :
  P [] ->
  (forall bs, bs <> [] -> utf8_step bs = None -> P bs) ->
  (forall bs cp r, utf8_step bs = Some (cp, r) -> P r -> P bs) ->
  forall bs, P bs.
Proof.
  intros Hnil Hfail Hstep bs.
  remember (List.length bs) as n eqn:Hn.
  revert bs Hn. induction n as [n IH] using lt_wf_ind. intros bs Hn.
  destruct bs as [| b0 r0]; [exact Hnil |].
  destruct (utf8_step (b0 :: r0)) as [[cp r] |] eqn:Hs.
  - apply (Hstep _ cp r Hs).
    apply (IH (List.length r)); [| reflexivity].
    subst n. apply (utf8_step_shorter _ _ _ Hs).
  - apply Hfail; [discriminate | exact Hs].
Qed.

Lemma utf8_step_app (bs t : list Z) (cp : Z) (r : list Z) :
  utf8_step bs = Some (cp, r) -> utf8_step (bs ++ t) = Some (cp, r ++ t).
Proof.
  destruct bs as [| b0 r0]; [discriminate |].
  cbn [utf8_step app].
  repeat match goal with
         | |- context [if ?c then _ else _] => destruct c
         | |- context [match ?l with [] => _ | _ :: _ => _ end] =>
           is_var l; destruct l; cbn [app]
         end; intros H; inversion H; subst; reflexivity.
Qed.

Lemma utf8_to_utf16_app (bs t : list Z) (ws wt : wstring) :
  utf8_to_utf16 bs = Some ws -> utf8_to_utf16 t = Some wt ->
  utf8_to_utf16 (bs ++ t) = Some (ws ++ wt).
Proof.
  intros Hbs Ht. revert ws Hbs.
  induction bs as [| bs Hne Hs | bs cp r Hs IH] using utf8_induction; intros ws Hbs.
  - inversion Hbs. exact Ht.
  - rewrite utf8_to_utf16_unfold, Hs in Hbs. destruct bs; [contradiction | discriminate].
  - rewrite utf8_to_utf16_unfold, Hs in Hbs.
    destruct bs as [| b0 r0]; [discriminate |].
    destruct (utf8_to_utf16 r) as [wr |]; [| discriminate].
    inversion Hbs; subst.
    rewrite utf8_to_utf16_unfold. cbn [app].
    change (b0 :: r0 ++ t) with ((b0 :: r0) ++ t).
    rewrite (utf8_step_app _ t _ _ Hs), (IH wr eq_refl).
    cbn [option_map]. rewrite app_assoc. reflexivity.
Qed.

Lemma utf8_step_well_formed (bs : list Z) (cp : Z) (r : list Z) :
  utf8_step bs = Some (cp, r) ->
  Forall (fun b => 0 <= b) bs ->
  well_formed_utf8 r -> well_formed_utf8 bs.
Proof.
  destruct bs as [| b0 r0]; [discriminate |].
  cbn [utf8_step]. unfold is_cont.
  repeat match goal with
         | |- context [if ?c then _ else _] => destruct c eqn:?
         | |- context [match ?l with [] => _ | _ :: _ => _ end] => destruct l
         end; intros H Hpos Hr; inversion H; subst; clear H;
    inversion Hpos; subst; zbool.
  - apply wf_one; [lia | assumption].
  - apply wf_two; [lia | lia | assumption].
  - apply wf_three; [lia | lia | assumption].
  - apply wf_three; [lia | lia | assumption].
  - apply wf_three; [lia | lia | assumption].
  - apply wf_three; [lia | lia | assumption].
  - apply wf_four; [lia | lia | lia | assumption].
  - apply wf_four; [lia | lia | lia | assumption].
  - apply wf_four; [lia | lia | lia | assumption].
  - apply wf_four; [lia | lia | lia | assumption].
Qed.

Lemma utf8_step_rest (P : Z -> Prop) (bs : list Z) (cp : Z) (r : list Z) :
  utf8_step bs = Some (cp, r) -> Forall P bs -> Forall P r.
Proof.
  destruct bs as [| b0 r0]; [discriminate |].
  cbn [utf8_step].
  repeat match goal with
         | |- context [if ?c then _ else _] => destruct c
         | |- context [match ?l with [] => _ | _ :: _ => _ end] => destruct l
         end; intros H Hall; inversion H; subst;
    repeat match goal with
           | Hf : Forall _ (_ :: _) |- _ => inversion Hf; subst; clear Hf
           end; assumption.
Qed.

Lemma well_formed_utf8_code_points (bs : list Z) :
  well_formed_utf8 bs -> utf8_code_points bs <> None.
Proof.
  induction 1 as [| b0 r H0 Hr IH | b0 b1 r H0 H1 Hr IH
                  | b0 b1 b2 r H0 H2 Hr IH | b0 b1 b2 b3 r H0 H2 H3 Hr IH];
    cbn [utf8_code_points]; unfold is_cont.
  - discriminate.
  - zcases. destruct (utf8_code_points r); [discriminate | contradiction].
  - zcases. cbn [andb]. destruct (utf8_code_points r); [discriminate | contradiction].
  - zcases; cbn [andb orb negb];
      destruct (utf8_code_points r); solve [discriminate | contradiction].
  - zcases; cbn [andb orb negb];
      destruct (utf8_code_points r); solve [discriminate | contradiction].
Qed.

Lemma well_formed_utf8_converts (bs : list Z) :
  well_formed_utf8 bs -> utf8_to_utf16 bs <> None.
Proof.
  intros H. apply well_formed_utf8_code_points in H. unfold utf8_to_utf16.
  destruct (utf8_code_points bs); [discriminate | contradiction].
Qed.

Lemma converts_well_formed_utf8 (bs : list Z) :
  Forall (fun b => 0 <= b) bs -> utf8_to_utf16 bs <> None -> well_formed_utf8 bs.
Proof.
  induction bs as [| bs Hne Hs | bs cp r Hs IH] using utf8_induction;
    intros Hpos Hconv.
  - constructor.
  - exfalso. apply Hconv. rewrite utf8_to_utf16_unfold, Hs.
    destruct bs; [contradiction | reflexivity].
  - apply (utf8_step_well_formed _ _ _ Hs Hpos).
    apply IH; [exact (utf8_step_rest _ _ _ _ Hs Hpos) |].
    intros Hr. apply Hconv. rewrite utf8_to_utf16_unfold, Hs, Hr.
    destruct bs; [discriminate | reflexivity].
Qed.

(** *** The conversion of the library, one code point at a time *)

Lemma utf16_in_unfold (bs : list Z) :
  utf16_in bs =
  match bs with
  | [] => (codecvt_ok, [])
  | _ :: _ =>
    match read_utf8_code_point bs with
    | read_code_point c next => emit (utf16_units c) (utf16_in next)
    | incomplete_mb_character => (codecvt_partial, [])
    | invalid_mb_sequence => (codecvt_error, [])
    end
  end.
Proof.
  destruct bs as [| c1 from1]; [reflexivity |].
  cbn [utf16_in read_utf8_code_point].
  repeat match goal with
         | |- context [if ?c then _ else _] => destruct c
         | |- context [match ?l with [] => _ | _ :: _ => _ end] => destruct l
         end; reflexivity.
Qed.

Lemma read_utf8_code_point_shorter (bs : list Z) (c : Z) (next : list Z) :
  read_utf8_code_point bs = read_code_point c next ->
  (List.length next < List.length bs)%nat.
Proof.
  destruct bs as [| c1 from1]; [discriminate |].
  cbn [read_utf8_code_point].
  repeat match goal with
         | |- context [if ?c then _ else _] => destruct c
         | |- context [match ?l with [] => _ | _ :: _ => _ end] => destruct l
         end; intros H; inversion H; subst; simpl; lia.
Qed.

Lemma read_induction (P : list Z -> Prop) :
  P [] ->
  (forall bs, bs <> [] -> read_utf8_code_point bs = incomplete_mb_character -> P bs) ->
  (forall bs, read_utf8_code_point bs = invalid_mb_sequence -> P bs) ->
  (forall bs c next,
      read_utf8_code_point bs = read_code_point c next -> P next -> P bs) ->
  forall bs, P bs.
Proof.
  intros Hnil Hinc Hinv Hstep bs.
  remember (List.length bs) as n eqn:Hn.
  revert bs Hn. induction n as [n IH] using lt_wf_ind. intros bs Hn.
  destruct bs as [| b0 r0]; [exact Hnil |].
  destruct (read_utf8_code_point (b0 :: r0)) as [c next | |] eqn:Hs.
  - apply (Hstep _ c next Hs).
    apply (IH (List.length next)); [| reflexivity].
    subst n. apply (read_utf8_code_point_shorter _ _ _ Hs).
  - apply Hinc; [discriminate | exact Hs].
  - apply Hinv. exact Hs.
Qed.

(** Where the Unicode Standard finds a code point, the library finds the
    same one. *)
Lemma utf8_step_read (bs : list Z) (cp : Z) (r : list Z) :
  utf8_step bs = Some (cp, r) -> read_utf8_code_point bs = read_code_point cp r.
Proof.
  destruct bs as [| b0 r0]; [discriminate |].
  cbn [utf8_step read_utf8_code_point]. unfold is_cont.
  repeat match goal with
         | |- context [if ?c then _ else _] => destruct c eqn:?
         | |- context [match ?l with [] => _ | _ :: _ => _ end] => destruct l
         end; try discriminate; intros H; apply some_inj, pair_equal_spec in H;
    destruct H as [<- <-]; zbool; try lia; f_equal; shifts; lia.
Qed.

Lemma emit_nil {A : Type} (r : codecvt_result * list A) : emit [] r = r.
Proof. destruct r. reflexivity. Qed.

Lemma emit_emit {A : Type} (xs ys : list A) (r : codecvt_result * list A) :
  emit xs (emit ys r) = emit (xs ++ ys) r.
Proof. unfold emit. cbn [fst snd]. rewrite app_assoc. reflexivity. Qed.

(** A well-formed beginning is converted as the Unicode Standard says, and
    the conversion goes on with what follows it. *)
Lemma utf16_in_app (pre t : list Z) (ws : wstring) :
  utf8_to_utf16 pre = Some ws -> utf16_in (pre ++ t) = emit ws (utf16_in t).
Proof.
  revert ws.
  induction pre as [| bs Hne Hs | bs cp r Hs IH] using utf8_induction; intros ws Hpre.
  - cbn in Hpre. apply some_inj in Hpre. subst ws. rewrite emit_nil. reflexivity.
  - rewrite utf8_to_utf16_unfold, Hs in Hpre. destruct bs; [contradiction | discriminate].
  - rewrite utf8_to_utf16_unfold, Hs in Hpre.
    destruct bs as [| b0 r0]; [discriminate |].
    destruct (utf8_to_utf16 r) as [wr |]; [| discriminate].
    cbn [option_map] in Hpre. apply some_inj in Hpre. subst ws.
    rewrite utf16_in_unfold. cbn [app].
    change (b0 :: r0 ++ t) with ((b0 :: r0) ++ t).
    rewrite (utf8_step_read _ _ _ (utf8_step_app _ t _ _ Hs)).
    rewrite (IH wr eq_refl), emit_emit. reflexivity.
Qed.

Lemma utf16_in_strict (bs : list Z) (ws : wstring) :
  utf8_to_utf16 bs = Some ws -> utf16_in bs = (codecvt_ok, ws).
Proof.
  intros H. rewrite <- (app_nil_r bs), (utf16_in_app bs [] ws H).
  unfold emit. cbn [utf16_in fst snd]. rewrite app_nil_r. reflexivity.
Qed.

(** On well-formed UTF-8 [from_bytes] is the conversion of the Unicode
    Standard. *)
Lemma from_bytes_strict (s : string) (ws : wstring) :
  utf8_to_utf16 (bytes_of_string s) = Some ws -> from_bytes s = Ok ws.
Proof. intros H. unfold from_bytes. rewrite (utf16_in_strict _ _ H). reflexivity. Qed.

Lemma invalid_sequence_read (bs : list Z) :
  invalid_sequence bs -> read_utf8_code_point bs = invalid_mb_sequence.
Proof.
  intros H. destruct H as [b0 r H0 | b0 b1 r H0 H1 | b0 b1 b2 r H0 H1
                           | b0 b1 b2 b3 r H0 H1];
    cbn [read_utf8_code_point]; unfold is_cont.
  - zcases; reflexivity.
  - zcases; reflexivity.
  - zcases; reflexivity.
  - zcases; reflexivity.
Qed.


Lemma utf16_in_invalid (pre bad : list Z) :
  well_formed_utf8 pre -> invalid_sequence bad ->
  fst (utf16_in (pre ++ bad)) = codecvt_error.
Proof.
  intros Hpre Hbad. apply well_formed_utf8_converts in Hpre.
  destruct (utf8_to_utf16 pre) as [ws |] eqn:Hws; [| contradiction].
  rewrite (utf16_in_app _ _ _ Hws), utf16_in_unfold, (invalid_sequence_read _ Hbad).
  destruct bad; [inversion Hbad | reflexivity].
Qed.


Lemma from_bytes_invalid (s : string) (pre bad : list Z) :
  bytes_of_string s = pre ++ bad -> well_formed_utf8 pre -> invalid_sequence bad ->
  from_bytes s = Throw range_error.
Proof.
  intros Hs Hpre Hbad. unfold from_bytes. rewrite Hs.
  pose proof (utf16_in_invalid _ _ Hpre Hbad) as H.
  destruct (utf16_in (pre ++ bad)) as [r ws]. cbn [fst] in H. subst r. reflexivity.
Qed.


(** ** Lines *)

Lemma string_last (s : string) (c : ascii) :
  String.get (String.length s - 1) s = Some c ->
  s = (String.substring 0 (String.length s - 1) s ++ String c EmptyString)%string.
Proof.
  induction s as [| a s IH]; [discriminate |].
  cbn [String.length]. rewrite Nat.sub_1_r. cbn [Nat.pred].
  destruct s as [| b s'].
  - simpl. intros H. inversion H. reflexivity.
  - cbn [String.length] in *. rewrite Nat.sub_1_r in IH. cbn [Nat.pred] in IH.
    intros H. cbn [String.get] in H.
    change (String.substring 0 (S (String.length s')) (String a (String b s')))
      with (String a (String.substring 0 (String.length s') (String b s'))).
    cbn [String.append]. f_equal. apply IH.
    destruct (String.length s'); exact H.
Qed.

Lemma strip_cr_cases (line : string) :
  strip_cr line = line
  \/ line = (strip_cr line ++ String "013"%char EmptyString)%string.
Proof.
  unfold strip_cr.
  destruct ((0 <? String.length line)%nat); cbn [andb]; [| left; reflexivity].
  destruct (String.get (String.length line - 1) line) as [c |] eqn:Hg;
    [| left; reflexivity].
  destruct (Ascii.eqb_spec c "013"%char) as [-> | _]; [| left; reflexivity].
  right. apply string_last. exact Hg.
Qed.

Lemma strip_cr_app_cr (s : string) :
  strip_cr (s ++ String "013"%char EmptyString) = s.
Proof.
  unfold strip_cr. rewrite length_app_char.
  cbn [Nat.ltb Nat.leb andb]. rewrite Nat.sub_1_r. cbn [Nat.pred].
  rewrite get_app_char, substring_app_char. reflexivity.
Qed.

Lemma strip_cr_no_cr (s : string) :
  (forall s', s <> (s' ++ String "013"%char EmptyString)%string) -> strip_cr s = s.
Proof.
  intros H. destruct (strip_cr_cases s) as [Heq | Heq]; [exact Heq |].
  exfalso. exact (H _ Heq).
Qed.

Lemma for_each_throws {A S : Type} (body : S -> A -> result S) (xs : list A)
      (x : A) (s : S) :
  In x xs -> (forall s', body s' x = Throw range_error) ->
  for_each body xs s = Throw range_error.
Proof.
  revert s. induction xs as [| y xs IH]; intros s Hin Hx; [destruct Hin |].
  cbn [for_each]. destruct Hin as [-> | Hin].
  - rewrite Hx. reflexivity.
  - destruct (body s y) as [s' | []]; cbn [bind]; [| reflexivity].
    apply IH; assumption.
Qed.


Lemma buildTrigramProfile_throws_on (text : Text) (line : string) (pre bad : list Z) :
  In line text ->
  bytes_of_string (strip_cr line) = pre ++ bad ->
  well_formed_utf8 pre -> invalid_sequence bad ->
  buildTrigramProfile text = Throw range_error.
Proof.
  intros Hin Hline Hpre Hbad. unfold buildTrigramProfile.
  apply (for_each_throws _ _ line); [exact Hin |].
  intros p. unfold scan_line.
  rewrite (from_bytes_invalid _ _ _ Hline Hpre Hbad). reflexivity.
Qed.







(** ** Letter case *)

Lemma byte_of_lower_char (c : ascii) :
  byte_of_ascii (lower_char c) = tolower (byte_of_ascii c).
Proof. destruct c as [[] [] [] [] [] [] [] []]; reflexivity. Qed.

Lemma lower_char_cr (c : ascii) :
  Ascii.eqb (lower_char c) "013"%char = Ascii.eqb c "013"%char.
Proof. destruct c as [[] [] [] [] [] [] [] []]; reflexivity. Qed.

Lemma bytes_of_ascii_lowercase (s : string) :
  bytes_of_string (ascii_lowercase s) = map tolower (bytes_of_string s).
Proof.
  induction s as [| c s IH]; simpl; [reflexivity |].
  rewrite byte_of_lower_char, IH. reflexivity.
Qed.

Lemma length_ascii_lowercase (s : string) :
  String.length (ascii_lowercase s) = String.length s.
Proof. induction s as [| c s IH]; simpl; [| rewrite IH]; reflexivity. Qed.

Lemma get_ascii_lowercase (n : nat) (s : string) :
  String.get n (ascii_lowercase s) = option_map lower_char (String.get n s).
Proof.
  revert n. induction s as [| c s IH]; intros n; simpl; [reflexivity |].
  destruct n; [reflexivity | apply IH].
Qed.

Lemma substring_ascii_lowercase (n m : nat) (s : string) :
  String.substring n m (ascii_lowercase s) = ascii_lowercase (String.substring n m s).
Proof.
  revert n m. induction s as [| c s IH]; intros n m; simpl.
  - destruct n, m; reflexivity.
  - destruct n, m; simpl; try reflexivity; rewrite IH; reflexivity.
Qed.

Lemma strip_cr_ascii_lowercase (line : string) :
  strip_cr (ascii_lowercase line) = ascii_lowercase (strip_cr line).
Proof.
  unfold strip_cr.
  rewrite length_ascii_lowercase, get_ascii_lowercase, substring_ascii_lowercase.
  destruct (String.get (String.length line - 1) line) as [c |]; cbn [option_map].
  - rewrite lower_char_cr.
    destruct ((0 <? String.length line)%nat && Ascii.eqb c "013"%char); reflexivity.
  - rewrite andb_false_r. reflexivity.
Qed.

Lemma tolower_cases (c : Z) :
  (65 <= c <= 90 /\ tolower c = c + 32) \/ ((c < 65 \/ 90 < c) /\ tolower c = c).
Proof.
  unfold tolower.
  destruct (Z.leb_spec 65 c), (Z.leb_spec c 90); cbn [andb]; [left | right ..];
    split; try reflexivity; lia.
Qed.

Lemma tolower_idempotent (c : Z) : tolower (tolower c) = tolower c.
Proof.
  destruct (tolower_cases c) as [[H ->] | [H ->]].
  - destruct (tolower_cases (c + 32)) as [[H' _] | [_ ->]]; [lia | reflexivity].
  - destruct (tolower_cases c) as [[H' _] | [_ ->]]; [lia | reflexivity].
Qed.

Lemma tolower_high (c : Z) : 0x80 <= c -> tolower c = c.
Proof. intros H. destruct (tolower_cases c) as [[H' _] | [_ ->]]; [lia | reflexivity]. Qed.

Lemma is_cont_tolower (b : Z) : is_cont (tolower b) = is_cont b.
Proof.
  destruct (tolower_cases b) as [[H ->] | [_ ->]]; [| reflexivity].
  unfold is_cont. zcases; reflexivity.
Qed.

Lemma is_cont_high (b : Z) : is_cont b = true -> 0x80 <= b.
Proof. unfold is_cont. intros H. zbool. lia. Qed.

Lemma utf16_units_tolower (cp : Z) :
  0x80 <= cp -> map tolower (utf16_units cp) = utf16_units cp.
Proof.
  intros H. unfold utf16_units. destruct (Z.ltb_spec cp 0x10000); cbn [map].
  - rewrite tolower_high by lia. reflexivity.
  - assert (0 <= Z.shiftr (cp - 0x10000) 10) by (apply Z.shiftr_nonneg; lia).
    assert (0 <= Z.land (cp - 0x10000) 0x3FF) by (apply Z.land_nonneg; lia).
    rewrite !tolower_high by lia. reflexivity.
Qed.

Lemma utf8_step_tolower (bs : list Z) :
  utf8_step (map tolower bs) =
  match utf8_step bs with
  | Some (cp, r) => Some (tolower cp, map tolower r)
  | None => None
  end.
Proof.
  destruct bs as [| b0 r0]; [reflexivity |].
  cbn [map utf8_step].
  destruct (Z.ltb_spec b0 0x80) as [Hlo | Hhi].
  - destruct (tolower_cases b0) as [[H ->] | [H ->]].
    + destruct (Z.ltb_spec (b0 + 32) 0x80); [reflexivity | lia].
    + destruct (Z.ltb_spec b0 0x80); [reflexivity | lia].
  - rewrite (tolower_high b0 Hhi).
    destruct (Z.ltb_spec b0 0x80); [lia |].
    destruct (Z.ltb_spec b0 0xC2); [reflexivity |].
    destruct (Z.ltb_spec b0 0xE0); [| destruct (Z.ltb_spec b0 0xF0);
                                      [| destruct (Z.ltb_spec b0 0xF5); [| reflexivity]]].
    + destruct r0 as [| b1 r1]; [reflexivity |]. cbn [map].
      rewrite is_cont_tolower. destruct (is_cont b1) eqn:Hc1; [| reflexivity].
      pose proof (is_cont_high _ Hc1).
      rewrite (tolower_high b1) by assumption.
      rewrite (tolower_high (_ + _)); [reflexivity |]. shifts. lia.
    + destruct r0 as [| b1 [| b2 r2]]; [reflexivity | reflexivity |]. cbn [map].
      rewrite !is_cont_tolower.
      destruct (is_cont b1) eqn:Hc1; [| reflexivity].
      destruct (is_cont b2) eqn:Hc2; [| reflexivity].
      pose proof (is_cont_high _ Hc1). pose proof (is_cont_high _ Hc2).
      rewrite (tolower_high b1), (tolower_high b2) by assumption.
      cbn [andb].
      destruct ((negb (b0 =? 224) || (160 <=? b1))
                && (negb (b0 =? 237) || (b1 <? 160))) eqn:Hc; [| reflexivity].
      rewrite (tolower_high (_ + _)); [reflexivity |]. zbool; shifts; lia.
    + destruct r0 as [| b1 [| b2 [| b3 r3]]]; [reflexivity | reflexivity | reflexivity |].
      cbn [map]. rewrite !is_cont_tolower.
      destruct (is_cont b1) eqn:Hc1; [| reflexivity].
      destruct (is_cont b2) eqn:Hc2; [| reflexivity].
      destruct (is_cont b3) eqn:Hc3; [| reflexivity].
      pose proof (is_cont_high _ Hc1). pose proof (is_cont_high _ Hc2).
      pose proof (is_cont_high _ Hc3).
      rewrite (tolower_high b1), (tolower_high b2), (tolower_high b3) by assumption.
      cbn [andb].
      destruct ((negb (b0 =? 240) || (144 <=? b1))
                && (negb (b0 =? 244) || (b1 <? 144))) eqn:Hc; [| reflexivity].
      rewrite (tolower_high (_ + _)); [reflexivity |]. zbool; shifts; lia.
Qed.

Lemma utf8_step_units_tolower (bs : list Z) (cp : Z) (r : list Z) :
  utf8_step bs = Some (cp, r) ->
  utf16_units (tolower cp) = map tolower (utf16_units cp).
Proof.
  intros Hs.
  assert (Hcp : cp < 0x80 \/ 0x80 <= cp) by lia.
  destruct Hcp as [Hlo | Hhi].
  - unfold utf16_units.
    destruct (tolower_cases cp) as [[H ->] | [H ->]].
    + destruct (Z.ltb_spec (cp + 32) 0x10000), (Z.ltb_spec cp 0x10000); try lia.
      cbn [map]. destruct (tolower_cases cp) as [[_ ->] | [H' _]]; [reflexivity | lia].
    + destruct (Z.ltb_spec cp 0x10000); [| lia].
      cbn [map]. destruct (tolower_cases cp) as [[H' _] | [_ ->]]; [lia | reflexivity].
  - rewrite (tolower_high cp Hhi). symmetry. apply utf16_units_tolower. exact Hhi.
Qed.

Lemma utf8_to_utf16_tolower (bs : list Z) :
  utf8_to_utf16 (map tolower bs) = option_map (map tolower) (utf8_to_utf16 bs).
Proof.
  induction bs as [| bs Hne Hs | bs cp r Hs IH] using utf8_induction.
  - reflexivity.
  - rewrite (utf8_to_utf16_unfold bs), (utf8_to_utf16_unfold (map tolower bs)).
    rewrite utf8_step_tolower, Hs. destruct bs; [contradiction | reflexivity].
  - rewrite (utf8_to_utf16_unfold bs), (utf8_to_utf16_unfold (map tolower bs)).
    rewrite utf8_step_tolower, Hs, IH.
    destruct bs as [| b0 r0]; [discriminate |]. cbn [map].
    destruct (utf8_to_utf16 r) as [wr |]; cbn [option_map]; [| reflexivity].
    rewrite (utf8_step_units_tolower _ _ _ Hs), map_app. reflexivity.
Qed.

Lemma utf16_units_tolower_any (cp : Z) :
  utf16_units (tolower cp) = map tolower (utf16_units cp).
Proof.
  assert (Hcp : cp < 0x80 \/ 0x80 <= cp) by lia.
  destruct Hcp as [Hlo | Hhi].
  - unfold utf16_units.
    destruct (tolower_cases cp) as [[H ->] | [H ->]].
    + destruct (Z.ltb_spec (cp + 32) 0x10000), (Z.ltb_spec cp 0x10000); try lia.
      cbn [map]. destruct (tolower_cases cp) as [[_ ->] | [H' _]]; [reflexivity | lia].
    + destruct (Z.ltb_spec cp 0x10000); [| lia].
      cbn [map]. destruct (tolower_cases cp) as [[H' _] | [_ ->]]; [lia | reflexivity].
  - rewrite (tolower_high cp Hhi). symmetry. apply utf16_units_tolower. exact Hhi.
Qed.

Lemma read_utf8_code_point_tolower (bs : list Z) :
  read_utf8_code_point (map tolower bs) =
  match read_utf8_code_point bs with
  | read_code_point c next => read_code_point (tolower c) (map tolower next)
  | incomplete_mb_character => incomplete_mb_character
  | invalid_mb_sequence => invalid_mb_sequence
  end.
Proof.
  destruct bs as [| b0 r0]; [reflexivity |].
  cbn [map read_utf8_code_point].
  destruct (Z.ltb_spec b0 0x80) as [Hlo | Hhi].
  - destruct (tolower_cases b0) as [[H ->] | [H ->]].
    + destruct (Z.ltb_spec (b0 + 32) 0x80); [reflexivity | lia].
    + destruct (Z.ltb_spec b0 0x80); [reflexivity | lia].
  - rewrite (tolower_high b0 Hhi).
    destruct (Z.ltb_spec b0 0x80); [lia |].
    destruct (Z.ltb_spec b0 0xC2); [reflexivity |].
    destruct (Z.ltb_spec b0 0xE0); [| destruct (Z.ltb_spec b0 0xF0);
                                      [| destruct (Z.ltb_spec b0 0xF5); [| reflexivity]]].
    + destruct r0 as [| b1 r1]; [reflexivity |]. cbn [map].
      rewrite is_cont_tolower. destruct (is_cont b1) eqn:Hc1; [| reflexivity].
      pose proof (is_cont_high _ Hc1). cbn [negb].
      rewrite (tolower_high b1) by assumption.
      rewrite (tolower_high (_ - _)); [reflexivity |]. shifts. lia.
    + destruct r0 as [| b1 [| b2 r2]]; [reflexivity | reflexivity |]. cbn [map].
      rewrite !is_cont_tolower.
      destruct (is_cont b1) eqn:Hc1; [| reflexivity].
      pose proof (is_cont_high _ Hc1). cbn [negb].
      rewrite (tolower_high b1) by assumption.
      destruct ((b0 =? 224) && (b1 <? 160)) eqn:Hover; [reflexivity |].
      destruct (is_cont b2) eqn:Hc2; [| reflexivity].
      pose proof (is_cont_high _ Hc2). cbn [negb].
      rewrite (tolower_high b2) by assumption.
      rewrite (tolower_high (_ - _)); [reflexivity |]. zbool; shifts; lia.
    + destruct r0 as [| b1 [| b2 [| b3 r3]]]; [reflexivity | reflexivity | reflexivity |].
      cbn [map]. rewrite !is_cont_tolower.
      destruct (is_cont b1) eqn:Hc1; [| reflexivity].
      pose proof (is_cont_high _ Hc1). cbn [negb].
      rewrite (tolower_high b1) by assumption.
      destruct ((b0 =? 240) && (b1 <? 144)) eqn:Hover; [reflexivity |].
      destruct ((b0 =? 244) && (144 <=? b1)) eqn:Hbig; [reflexivity |].
      destruct (is_cont b2) eqn:Hc2; [| reflexivity].
      destruct (is_cont b3) eqn:Hc3; [| reflexivity].
      pose proof (is_cont_high _ Hc2). pose proof (is_cont_high _ Hc3). cbn [negb].
      rewrite (tolower_high b2), (tolower_high b3) by assumption.
      rewrite (tolower_high (_ - _)); [reflexivity |]. zbool; shifts; lia.
Qed.

Lemma utf16_in_tolower (bs : list Z) :
  utf16_in (map tolower bs) = (fst (utf16_in bs), map tolower (snd (utf16_in bs))).
Proof.
  induction bs as [| bs Hne Hs | bs Hs | bs c next Hs IH] using read_induction.
  - reflexivity.
  - rewrite (utf16_in_unfold bs), (utf16_in_unfold (map tolower bs)).
    rewrite read_utf8_code_point_tolower, Hs. destruct bs; [contradiction | reflexivity].
  - rewrite (utf16_in_unfold bs), (utf16_in_unfold (map tolower bs)).
    rewrite read_utf8_code_point_tolower, Hs. destruct bs; [discriminate | reflexivity].
  - rewrite (utf16_in_unfold bs), (utf16_in_unfold (map tolower bs)).
    rewrite read_utf8_code_point_tolower, Hs, IH.
    destruct bs as [| b0 r0]; [discriminate |]. cbn [map].
    unfold emit. cbn [fst snd].
    rewrite utf16_units_tolower_any, map_app. reflexivity.
Qed.

(** The units of a line in small letters are the lowered units of the
    line. *)
Lemma from_bytes_ascii_lowercase (s : string) :
  from_bytes (ascii_lowercase s)
  = (ws <- from_bytes s ;; Ok (map tolower ws)).
Proof.
  unfold from_bytes. rewrite bytes_of_ascii_lowercase, utf16_in_tolower.
  destruct (utf16_in (bytes_of_string s)) as [[| |] ws]; reflexivity.
Qed.

Lemma scan_line_ascii_lowercase (p : TrigramProfile) (line : string) :
  scan_line p (ascii_lowercase line) = scan_line p line.
Proof.
  unfold scan_line.
  rewrite strip_cr_ascii_lowercase, from_bytes_ascii_lowercase.
  destruct (from_bytes (strip_cr line)) as [ws | e]; cbn [bind]; [| reflexivity].
  rewrite length_map, map_map.
  rewrite (map_ext _ tolower tolower_idempotent). reflexivity.
Qed.

Lemma for_each_map {A B S : Type} (body : S -> B -> result S) (f : A -> B)
      (xs : list A) (s : S) :
  for_each body (map f xs) s = for_each (fun s' x => body s' (f x)) xs s.
Proof.
  revert s. induction xs as [| x xs IH]; intros s; cbn [map for_each].
  - reflexivity.
  - destruct (body s (f x)); cbn [bind]; [apply IH | reflexivity].
Qed.

Lemma for_each_ext {A S : Type} (body body' : S -> A -> result S)
      (xs : list A) (s : S) :
  (forall s' x, body s' x = body' s' x) ->
  for_each body xs s = for_each body' xs s.
Proof.
  intros H. revert s. induction xs as [| x xs IH]; intros s; cbn [for_each].
  - reflexivity.
  - rewrite H. destruct (body' s x); cbn [bind]; [apply IH | reflexivity].
Qed.

Lemma buildTrigramProfile_ascii_lowercase (text : Text) :
  buildTrigramProfile (map ascii_lowercase text) = buildTrigramProfile text.
Proof.
  unfold buildTrigramProfile. rewrite for_each_map.
  apply for_each_ext. exact scan_line_ascii_lowercase.
Qed.

(** C7, as the code has it: two texts that differ only in the case of the
    ASCII letters A to Z have the same profile; ["ABC"] and ["abc"] both give
    the one key ["abc"], counted once. *)
Theorem buildTrigramProfile_case_insensitive (text1 text2 : Text) :
  map ascii_lowercase text1 = map ascii_lowercase text2 ->
  buildTrigramProfile text1 = buildTrigramProfile text2.
Proof.
  intros H.
  rewrite <- (buildTrigramProfile_ascii_lowercase text1), H.
  apply buildTrigramProfile_ascii_lowercase.
Qed.

Lemma buildTrigramProfile_case_insensitive_witness :
  buildTrigramProfile ["ABC"%string] = buildTrigramProfile ["abc"%string]
  /\ buildTrigramProfile ["abc"%string] = Ok [("abc"%string, F1)]
  /\ buildTrigramProfile ["The Quick"; "ZOO"]%string
     = buildTrigramProfile ["tHE qUICK"; "zoo"]%string.
Proof.
  split; [| split].
  - apply (buildTrigramProfile_case_insensitive ["ABC"%string] ["abc"%string]).
    reflexivity.
  - reflexivity.
  - apply (buildTrigramProfile_case_insensitive
             ["The Quick"; "ZOO"]%string ["tHE qUICK"; "zoo"]%string).
    reflexivity.
Defined.

(** C7 as stated fails: a capital letter outside ASCII is not folded.  The
    lines É T É and é t é, which differ only in case, get different keys. *)
Lemma buildTrigramProfile_accented_capitals :
  line_code_points upper_accented_line = Some [0xC9; 0x54; 0xC9]
  /\ line_code_points lower_accented_line = Some [0xE9; 0x74; 0xE9]
  /\ buildTrigramProfile [upper_accented_line]
     = Ok [(string_of_bytes [0xC3; 0x89; 0x74; 0xC3; 0x89], F1)]
  /\ buildTrigramProfile [lower_accented_line] = Ok [(lower_accented_line, F1)]
  /\ buildTrigramProfile [upper_accented_line]
     <> buildTrigramProfile [lower_accented_line].
Proof.
  repeat split; try reflexivity. discriminate.
Qed.

(** ** [normalizeTrigramProfile] on a profile of weight zero *)

(** C6 fails on the code: an empty profile comes back empty, but a profile
    whose values are all zero comes back with a NaN at every key. *)
Theorem normalizeTrigramProfile_zero_weight :
  normalizeTrigramProfile [] = []
  /\ normalizeTrigramProfile [("abc"%string, F0)] = [("abc"%string, S754_nan)]
  /\ normalizeTrigramProfile [("abc"%string, F0); ("bcd"%string, F0)]
     = [("abc"%string, S754_nan); ("bcd"%string, S754_nan)].
Proof. repeat split. Qed.

Lemma normalizeTrigramProfile_all_zero (p : TrigramProfile) :
  (forall e, In e p -> snd e = F0) ->
  forall e, In e (normalizeTrigramProfile p) -> snd e = S754_nan.
Proof.
  intros Hz. unfold normalizeTrigramProfile.
  assert (Hsum : fold_left (fun acc element => fadd acc (fmul (snd element) (snd element)))
                           p F0 = F0).
  { induction p as [| h p IH]; [reflexivity |].
    cbn [fold_left]. rewrite (Hz h) by (left; reflexivity).
    change (fadd F0 (fmul F0 F0)) with F0.
    apply IH. intros e He. apply Hz. right. exact He. }
  rewrite Hsum. intros e He. apply in_map_iff in He.
  destruct He as (x & <- & Hx). cbn [snd]. rewrite (Hz x Hx). reflexivity.
Qed.

(** ** Counting in binary32 *)

Lemma digits2_pos_size (p : positive) : digits2_pos p = Pos.size p.
Proof. induction p as [p IH | p IH |]; simpl; [rewrite IH .. |]; reflexivity. Qed.

Lemma digits2_pos_log2 (p : positive) : Zpos (digits2_pos p) = Z.log2 (Zpos p) + 1.
Proof.
  rewrite digits2_pos_size. destruct p; simpl; try reflexivity; rewrite Pos2Z.inj_succ; lia.
Qed.

Lemma digits2_pos_scaled (M m : positive) (j : Z) :
  0 <= j -> Zpos M = Zpos m * 2 ^ j -> 2 ^ 23 <= Zpos m < 2 ^ 24 ->
  Zpos (digits2_pos M) = 24 + j.
Proof.
  intros Hj HM Hm. rewrite digits2_pos_log2, HM.
  assert (Hpos : 0 < 2 ^ j) by (apply Z.pow_pos_nonneg; lia).
  assert (Hlo : 2 ^ (23 + j) <= Zpos m * 2 ^ j).
  { rewrite Z.pow_add_r by lia. apply Z.mul_le_mono_nonneg_r; lia. }
  assert (Hhi : Zpos m * 2 ^ j < 2 ^ Z.succ (23 + j)).
  { replace (Z.succ (23 + j)) with (24 + j) by lia.
    rewrite Z.pow_add_r by lia. apply Z.mul_lt_mono_pos_r; lia. }
  rewrite (Z.log2_unique _ (23 + j)); [lia | lia | split; assumption].
Qed.

Lemma iter_pos_nat {A : Type} (f : A -> A) (n : positive) (x : A) :
  iter_pos f n x = Nat.iter (Pos.to_nat n) f x.
Proof.
  revert x. induction n as [n IH | n IH |]; intros x; cbn [iter_pos].
  - rewrite !IH, Pos2Nat.inj_xI.
    replace (S (2 * Pos.to_nat n)) with (Pos.to_nat n + (Pos.to_nat n + 1))%nat by lia.
    rewrite !Nat.iter_add. reflexivity.
  - rewrite !IH, Pos2Nat.inj_xO.
    replace (2 * Pos.to_nat n)%nat with (Pos.to_nat n + Pos.to_nat n)%nat by lia.
    rewrite Nat.iter_add. reflexivity.
  - reflexivity.
Qed.

Lemma shr_1_double (z : Z) :
  0 < z -> shr_1 (Build_shr_record (2 * z) false false) = Build_shr_record z false false.
Proof. destruct z; [lia | reflexivity | lia]. Qed.

Lemma shr_exact (k : nat) (z : Z) :
  0 < z ->
  Nat.iter k shr_1 (Build_shr_record (z * 2 ^ Z.of_nat k) false false)
  = Build_shr_record z false false.
Proof.
  intros Hz. induction k as [| k IH].
  - simpl. f_equal. lia.
  - rewrite Nat.iter_succ_r.
    replace (z * 2 ^ Z.of_nat (S k)) with (2 * (z * 2 ^ Z.of_nat k)).
    + rewrite shr_1_double; [exact IH |].
      assert (0 < 2 ^ Z.of_nat k) by (apply Z.pow_pos_nonneg; lia). nia.
    + rewrite Nat2Z.inj_succ, Z.pow_succ_r by lia. lia.
Qed.

Lemma binary_normalize_exact (M m : positive) (j e : Z) :
  0 <= j -> Zpos M = Zpos m * 2 ^ j -> 2 ^ 23 <= Zpos m < 2 ^ 24 ->
  -149 <= e <= 104 ->
  binary_normalize prec emax (Zpos M) (e - j) false = S754_finite false m e.
Proof.
  intros Hj HM Hm He.
  pose proof (digits2_pos_scaled M m j Hj HM Hm) as HdM.
  assert (Hdm : Zpos (digits2_pos m) = 24).
  { rewrite (digits2_pos_scaled m m 0); lia. }
  unfold binary_normalize, binary_round.
  assert (Hfexp : fexp prec emax (Zpos (digits2_pos M) + (e - j)) = e).
  { rewrite HdM. unfold fexp, emin, prec, emax. lia. }
  rewrite Hfexp.
  assert (Halign : shl_align M (e - j) e = (M, e - j)).
  { unfold shl_align. destruct (e - (e - j)) eqn:Hd; try reflexivity. lia. }
  rewrite Halign.
  unfold binary_round_aux.
  assert (Hshr : shr_fexp prec emax (Zpos M) (e - j) loc_Exact
                 = (Build_shr_record (Zpos m) false false, e)).
  { unfold shr_fexp. cbn [Zdigits2]. rewrite Hfexp. cbn [shr_record_of_loc].
    unfold shr. destruct (e - (e - j)) as [| pj | pj] eqn:Hd.
    - assert (j = 0) by lia. subst j. rewrite HM. f_equal; [f_equal |]; lia.
    - rewrite iter_pos_nat, HM.
      assert (Hjj : j = Z.of_nat (Pos.to_nat pj)) by (rewrite positive_nat_Z; lia).
      rewrite Hjj at 1. rewrite shr_exact by lia. f_equal. lia.
    - lia. }
  rewrite Hshr. cbn [shr_m loc_of_shr_record round_nearest_even].
  assert (Hshr2 : shr_fexp prec emax (Zpos m) e loc_Exact
                  = (Build_shr_record (Zpos m) false false, e)).
  { unfold shr_fexp. cbn [Zdigits2]. rewrite Hdm.
    replace (fexp prec emax (24 + e)) with e by (unfold fexp, emin, prec, emax; lia).
    rewrite Z.sub_diag. reflexivity. }
  rewrite Hshr2. cbn [shr_m].
  destruct (Z.leb_spec e (emax - prec)); [reflexivity |].
  unfold emax, prec in *. lia.
Qed.

Lemma shl_align_value (mx : positive) (ex ez : Z) :
  ez <= ex -> Zpos (fst (shl_align mx ex ez)) = Zpos mx * 2 ^ (ex - ez).
Proof.
  intros H. unfold shl_align. destruct (ez - ex) as [| d | d] eqn:Hd.
  - replace (ex - ez) with 0 by lia. cbn [fst]. lia.
  - lia.
  - cbn [fst]. replace (ex - ez) with (Zpos d) by lia.
    change (Pos.iter xO mx d) with (shift_pos d mx).
    rewrite shift_pos_correct. change (Z.pow_pos 2 d) with (2 ^ Zpos d). lia.
Qed.

Lemma count_rep_one : count_rep 1 F1.
Proof.
  left. split; [lia |]. exists 8388608%positive, 23. repeat split; lia.
Qed.

Lemma fadd_one (m : positive) (k : Z) (m' : positive) (e' : Z) :
  0 <= k <= 23 ->
  2 ^ 23 <= Zpos m' < 2 ^ 24 ->
  - k <= e' <= 1 ->
  (Zpos m + 2 ^ k) * 2 ^ (23 - k) = Zpos m' * 2 ^ (e' + 23) ->
  fadd (S754_finite false m (- k)) F1 = S754_finite false m' e'.
Proof.
  intros Hk Hm' He' Heq.
  change F1 with (S754_finite false 8388608 (-23)).
  unfold fadd, SFadd. cbn [cond_Zopp].
  replace (Z.min (- k) (-23)) with (-23) by lia.
  rewrite <- Pos2Z.inj_add.
  pose proof (binary_normalize_exact
                (fst (shl_align m (- k) (-23)) + fst (shl_align 8388608 (-23) (-23)))
                m' (e' + 23) e') as HB.
  replace (e' - (e' + 23)) with (-23) in HB by lia.
  apply HB; try lia.
  rewrite Pos2Z.inj_add, !shl_align_value by lia.
  replace (- k - -23) with (23 - k) by lia.
  replace (-23 - -23) with 0 by lia.
  rewrite <- Heq. change (2 ^ 23) with 8388608.
  rewrite Z.mul_add_distr_r, <- Z.pow_add_r by lia.
  replace (k + (23 - k)) with 23 by lia. change (2 ^ 23) with 8388608. change (2 ^ 0) with 1. lia.
Qed.

Lemma count_rep_succ (n : Z) (v : float) :
  count_rep n v -> count_rep (n + 1) (fadd v F1).
Proof.
  intros [(Hn & m & k & -> & Hk & Hm & Hmk) | (Hn & ->)].
  - assert (Hcases : k = 0 \/ k = 1 \/ k = 2 \/ k = 3 \/ k = 4 \/ k = 5 \/ k = 6
                     \/ k = 7 \/ k = 8 \/ k = 9 \/ k = 10 \/ k = 11 \/ k = 12
                     \/ k = 13 \/ k = 14 \/ k = 15 \/ k = 16 \/ k = 17 \/ k = 18
                     \/ k = 19 \/ k = 20 \/ k = 21 \/ k = 22 \/ k = 23) by lia.
    assert (Hsplit : Zpos m + 2 ^ k < 2 ^ 24 \/ Zpos m + 2 ^ k = 2 ^ 24).
    { repeat (destruct Hcases as [-> | Hcases]); [.. | subst k];
        (let x := eval cbv in (2 ^ 24) in change (2 ^ 24) with x in * );
        match goal with
        | H : _ = n * 2 ^ ?c |- _ => let x := eval cbv in (2 ^ c) in change (2 ^ c) with x in *
        end; lia. }
    destruct Hsplit as [Hlt | Heq].
    + left. split.
      { assert (0 < 2 ^ k) by (apply Z.pow_pos_nonneg; lia).
        assert (1 <= 2 ^ k) by lia. nia. }
      assert (Hp : 0 < Zpos m + 2 ^ k) by (assert (0 < 2 ^ k) by (apply Z.pow_pos_nonneg; lia); lia).
      exists (Z.to_pos (Zpos m + 2 ^ k)), k.
      rewrite Z2Pos.id by lia.
      assert (0 < 2 ^ k) by (apply Z.pow_pos_nonneg; lia).
      repeat split; try lia.
      apply fadd_one; rewrite ?Z2Pos.id by lia; try lia;
        replace (- k + 23) with (23 - k) by lia; reflexivity.
    + assert (Hk0 : k = 0 \/ 1 <= k) by lia.
      destruct Hk0 as [-> | Hk1].
      * right. split; [change (2 ^ 0) with 1 in *; lia |].
        apply fadd_one; try lia; rewrite Heq; reflexivity.
      * left. 
        assert (Hpk : 2 ^ k = 2 * 2 ^ (k - 1)).
        { replace k with (Z.succ (k - 1)) at 1 by lia. apply Z.pow_succ_r. lia. }
        assert (0 < 2 ^ (k - 1)) by (apply Z.pow_pos_nonneg; lia).
        assert (Hn1 : (n + 1) * 2 ^ (k - 1) = 2 ^ 23).
        { change (2 ^ 24) with (2 * 2 ^ 23) in Heq. nia. }
        split.
        { change (2 ^ 24) with (2 * 2 ^ 23). 
          assert (2 <= 2 ^ k) by lia. change (2 ^ 24) with (2 * 2 ^ 23) in Heq. nia. }
        exists 8388608%positive, (k - 1). repeat split; try lia.
        apply fadd_one; try lia; rewrite Heq;
          replace (- (k - 1) + 23) with (24 - k) by lia;
          change (2 ^ 24) with (2 * 2 ^ 23);
          replace (24 - k) with (Z.succ (23 - k)) by lia;
          rewrite Z.pow_succ_r by lia; change (Z.pos 8388608) with (2 ^ 23); lia.
  - right. split; [lia | reflexivity].
Qed.

Lemma count_rep_value (n : Z) (v : float) :
  count_rep n v -> float_to_Z v = Some (Z.min n (2 ^ 24)).
Proof.
  intros [(Hn & m & k & -> & Hk & Hm & Hmk) | (Hn & ->)].
  - rewrite Z.min_l by lia. unfold float_to_Z.
    destruct k as [| p | p]; [| | lia].
    + cbn [Z.opp option_map]. f_equal. change (2 ^ 0) with 1 in Hmk. lia.
    + cbn [Z.opp]. rewrite Hmk.
      assert (0 < 2 ^ Zpos p) by (apply Z.pow_pos_nonneg; lia).
      rewrite Z.mod_mul, Z.div_mul by lia. reflexivity.
  - rewrite Z.min_r by lia. reflexivity.
Qed.

Lemma count_rep_int (n : Z) (v : float) :
  count_rep n v -> int_of_float v = Z.min n (2 ^ 24).
Proof.
  intros [(Hn & m & k & -> & Hk & Hm & Hmk) | (Hn & ->)].
  - rewrite Z.min_l by lia. unfold int_of_float.
    assert (Hv : match - k with
                 | Zneg p => Zpos m / 2 ^ Zpos p
                 | _ => Zpos m * 2 ^ (- k)
                 end = n).
    { destruct k as [| p | p]; [| | lia].
      - cbn [Z.opp]. change (2 ^ 0) with 1 in *. lia.
      - cbn [Z.opp]. rewrite Hmk.
        assert (0 < 2 ^ Zpos p) by (apply Z.pow_pos_nonneg; lia).
        rewrite Z.div_mul by lia. reflexivity. }
    rewrite Hv.
    destruct (Z.leb_spec (- 2 ^ 31) n), (Z.ltb_spec n (2 ^ 31)); cbn [andb];
      try reflexivity; change (2 ^ 31) with 2147483648 in *;
      change (2 ^ 24) with 16777216 in *; lia.
  - rewrite Z.min_r by lia. reflexivity.
Qed.

(** ** [normalizeTrigramProfile] on one key *)



















(** ** [buildTrigramProfile]: the trigrams of a text and their counts *)

Lemma windows3_length {A : Type} (l : list A) :
  List.length (windows3 l) = (List.length l - 2)%nat.
Proof.
  induction l as [| a t IH]; [reflexivity |].
  cbn [windows3]. destruct t as [| b [| c t']]; try reflexivity.
  cbn [List.length] in *. rewrite IH. lia.
Qed.

Lemma windows3_substr (ws : wstring) :
  map (fun i => substr ws i 3) (seq 0 (List.length ws - 2)) = windows3 ws.
Proof.
  induction ws as [| a t IH]; [reflexivity |].
  cbn [windows3]. destruct t as [| b [| c t']]; try reflexivity.
  replace (List.length (a :: b :: c :: t') - 2)%nat
    with (S (List.length (b :: c :: t') - 2)) by (cbn [List.length]; lia).
  cbn [seq map]. f_equal.
  rewrite <- seq_shift, map_map. exact IH.
Qed.

Lemma count_trigram_bump (ws : wstring) (p : TrigramProfile) (i : nat) :
  count_trigram ws p i = (t <- to_bytes (substr ws i 3) ;; Ok (bump p t)).
Proof.
  unfold count_trigram, bump.
  destruct (to_bytes (substr ws i 3)) as [t | e]; cbn [bind]; [| reflexivity].
  destruct (find t p) as [v |] eqn:Hf; [| reflexivity].
  rewrite (index_present _ _ _ Hf). reflexivity.
Qed.

Lemma for_each_bump (wins : list wstring) (p : TrigramProfile) :
  for_each (fun p' w => t <- to_bytes w ;; Ok (bump p' t)) wins p
  = (ts <- all_ok (map to_bytes wins) ;; Ok (fold_left bump ts p)).
Proof.
  revert p. induction wins as [| w wins IH]; intros p; cbn [for_each map all_ok].
  - reflexivity.
  - destruct (to_bytes w) as [t | e]; cbn [bind]; [| reflexivity].
    rewrite IH. destruct (all_ok (map to_bytes wins)); reflexivity.
Qed.

Lemma windows3_short {A : Type} (l : list A) :
  (List.length l < 3)%nat -> windows3 l = [].
Proof.
  intros H. destruct l as [| a [| b [| c t]]]; try reflexivity.
  cbn [List.length] in H. lia.
Qed.

Lemma scan_line_spec (p : TrigramProfile) (line : string) :
  scan_line p line = (ts <- line_trigrams line ;; Ok (fold_left bump ts p)).
Proof.
  unfold scan_line, line_trigrams.
  destruct (from_bytes (strip_cr line)) as [ws | e]; cbn [bind]; [| reflexivity].
  destruct (Nat.ltb_spec (List.length ws) 3) as [Hlt | Hge].
  - rewrite windows3_short by (rewrite length_map; exact Hlt). reflexivity.
  - rewrite (for_each_ext _ (fun p' i => t <- to_bytes (substr (map tolower ws) i 3) ;;
                                         Ok (bump p' t)))
      by (intros; apply count_trigram_bump).
    rewrite <- (for_each_map (fun p' w => t <- to_bytes w ;; Ok (bump p' t))
                             (fun i => substr (map tolower ws) i 3)).
    rewrite <- (length_map tolower ws), windows3_substr.
    apply for_each_bump.
Qed.

Lemma buildTrigramProfile_spec (text : Text) (p : TrigramProfile) :
  for_each scan_line text p = (ts <- text_trigrams text ;; Ok (fold_left bump ts p)).
Proof.
  revert p. induction text as [| line text IH]; intros p;
    cbn [for_each text_trigrams].
  - reflexivity.
  - rewrite scan_line_spec.
    destruct (line_trigrams line) as [ts | e]; cbn [bind]; [| reflexivity].
    rewrite IH. destruct (text_trigrams text) as [ts' | e]; cbn [bind]; [| reflexivity].
    rewrite fold_left_app. reflexivity.
Qed.

Lemma find_bump (p : TrigramProfile) (t t' : string) :
  find t' (bump p t) =
  if String.eqb t' t
  then Some (match find t p with Some v => fadd v F1 | None => F1 end)
  else find t' p.
Proof.
  unfold bump. destruct (find t p) as [v |] eqn:Hf.
  - rewrite find_assign, Hf. reflexivity.
  - apply find_insert_absent. exact Hf.
Qed.

Lemma sorted_bump (p : TrigramProfile) (t : string) : sorted p -> sorted (bump p t).
Proof.
  unfold bump. destruct (find t p); [apply sorted_assign | apply sorted_insert].
Qed.

Lemma sorted_fold_bump (ts : list string) (p : TrigramProfile) :
  sorted p -> sorted (fold_left bump ts p).
Proof.
  revert p. induction ts as [| t ts IH]; intros p Hp; cbn [fold_left]; auto using sorted_bump.
Qed.

Lemma find_fold_bump (ts : list string) (p : TrigramProfile) (t : string) :
  find t (fold_left bump ts p) = Nat.iter (occurrences t ts) counted (find t p).
Proof.
  revert p. induction ts as [| h ts IH]; intros p; cbn [fold_left].
  - reflexivity.
  - rewrite IH, find_bump. unfold occurrences. cbn [count_occ].
    destruct (string_dec h t) as [-> | Hne].
    + rewrite String.eqb_refl, Nat.iter_succ_r. reflexivity.
    + destruct (String.eqb_spec t h) as [-> | _]; [contradiction | reflexivity].
Qed.

Lemma counted_rep (n : nat) :
  exists v, Nat.iter (S n) counted None = Some v /\ count_rep (Z.of_nat (S n)) v.
Proof.
  induction n as [| n (v & Hv & Hrep)].
  - exists F1. split; [reflexivity | exact count_rep_one].
  - exists (fadd v F1). split.
    + change (Nat.iter (S (S n)) counted None) with (counted (Nat.iter (S n) counted None)).
      rewrite Hv. reflexivity.
    + replace (Z.of_nat (S (S n))) with (Z.of_nat (S n) + 1) by lia.
      apply count_rep_succ. exact Hrep.
Qed.

Lemma all_ok_length {A : Type} (rs : list (result A)) (xs : list A) :
  all_ok rs = Ok xs -> List.length xs = List.length rs.
Proof.
  revert xs. induction rs as [| r rs IH]; intros xs; cbn [all_ok].
  - intros H. inversion H. reflexivity.
  - destruct r as [x | e]; cbn [bind]; [| discriminate].
    destruct (all_ok rs) as [xs' | e]; cbn [bind]; [| discriminate].
    intros H. inversion H. cbn [List.length]. rewrite (IH xs' eq_refl). reflexivity.
Qed.

Lemma utf16_units_bmp (cps : list Z) :
  Forall (fun cp => cp < 0x10000) cps -> flat_map utf16_units cps = cps.
Proof.
  induction 1 as [| cp cps Hcp _ IH]; [reflexivity |].
  cbn [flat_map]. rewrite IH. unfold utf16_units.
  destruct (Z.ltb_spec cp 0x10000); [reflexivity | lia].
Qed.

Lemma buildTrigramProfile_throws (text : Text) (e : exn) :
  text_trigrams text = Throw e -> buildTrigramProfile text = Throw e.
Proof.
  intros H. unfold buildTrigramProfile. rewrite buildTrigramProfile_spec, H. reflexivity.
Qed.

(** In code units: when every conversion succeeds, the profile holds the
    number of occurrences of every trigram of the text. *)
Lemma buildTrigramProfile_counts_units (text : Text) (ts : list string) :
  text_trigrams text = Ok ts ->
  exists p, buildTrigramProfile text = Ok p /\ sorted p
            /\ forall t,
                match find t p with
                | Some v =>
                  (0 < occurrences t ts)%nat
                  /\ float_to_Z v = Some (Z.min (Z.of_nat (occurrences t ts)) (2 ^ 24))
                | None => occurrences t ts = 0%nat
                end.
Proof.
  intros Hts. unfold buildTrigramProfile.
  rewrite buildTrigramProfile_spec, Hts. cbn [bind].
  exists (fold_left bump ts []). split; [reflexivity |].
  split; [apply sorted_fold_bump; exact I |].
  intros t. rewrite find_fold_bump. cbn [find].
  destruct (occurrences t ts) as [| n]; [reflexivity |].
  destruct (counted_rep n) as (v & -> & Hrep).
  split; [lia |]. apply count_rep_value. exact Hrep.
Qed.

(** ** [addLanguage] *)

Lemma addLanguage_cases (getTextFromFile : string -> bool * Text)
      (writeCSV : string -> CSVData -> bool) (path : string) :
  addLanguage getTextFromFile writeCSV path =
  if fst (getTextFromFile path) then
    match buildTrigramProfile (snd (getTextFromFile path)) with
    | Throw e => (Throw e, [])
    | Ok [] => (Ok false, [])
    | Ok p => (Ok (writeCSV gua_csv (csv_rows p)), [(gua_csv, csv_rows p)])
    end
  else (Ok false, []).
Proof.
  unfold addLanguage, buildLanguageProfile.
  destruct (getTextFromFile path) as [[|] corpus]; cbn [fst snd]; [| reflexivity].
  destruct (buildTrigramProfile corpus) as [[| element p] | e]; reflexivity.
Qed.

(** C10, as the code has it: [addLanguage] returns [true] exactly when the
    text was read, its profile was built and is not empty, and [writeCSV]
    reports success; it returns [false] without calling [writeCSV] when the
    read fails or the profile is empty, and [false] when the write fails;
    when the corpus does not convert, the exception leaves [addLanguage] and
    nothing is written.  The one call to [writeCSV] names
    [resources/trigrams/gua.csv], whatever [path] is, and passes one row for
    each trigram, with its count as an integer. *)
Theorem addLanguage_outcomes (getTextFromFile : string -> bool * Text)
        (writeCSV : string -> CSVData -> bool) (path : string) :
  (fst (getTextFromFile path) = false ->
   addLanguage getTextFromFile writeCSV path = (Ok false, []))
  /\ (fst (getTextFromFile path) = true ->
      match buildLanguageProfile (snd (getTextFromFile path)) with
      | Throw e => addLanguage getTextFromFile writeCSV path = (Throw e, [])
      | Ok [] => addLanguage getTextFromFile writeCSV path = (Ok false, [])
      | Ok p =>
        addLanguage getTextFromFile writeCSV path
        = (Ok (writeCSV gua_csv (csv_rows p)), [(gua_csv, csv_rows p)])
        /\ List.length (csv_rows p) = List.length p
        /\ (forall k v, In (k, v) p -> In [k; decimal (int_of_float v)] (csv_rows p))
        /\ (forall ts t v, text_trigrams (snd (getTextFromFile path)) = Ok ts ->
                           find t p = Some v ->
                           int_of_float v = Z.min (Z.of_nat (occurrences t ts)) (2 ^ 24))
      end)
  /\ (fst (addLanguage getTextFromFile writeCSV path) = Ok true <->
      fst (getTextFromFile path) = true
      /\ exists p, buildLanguageProfile (snd (getTextFromFile path)) = Ok p
                   /\ p <> [] /\ writeCSV gua_csv (csv_rows p) = true).
Proof.
  rewrite addLanguage_cases. unfold buildLanguageProfile.
  destruct (getTextFromFile path) as [read corpus]; cbn [fst snd].
  split; [intros ->; reflexivity |].
  split.
  - intros ->.
    destruct (buildTrigramProfile corpus) as [[| element p] | e] eqn:Hb;
      try reflexivity.
    split; [reflexivity |].
    split; [apply length_map |].
    split.
    + intros k v Hin. unfold csv_rows.
      apply (in_map (fun element => [fst element; decimal (int_of_float (snd element))])
                    _ (k, v)). exact Hin.
    + intros ts t v Hts Hf.
      unfold buildTrigramProfile in Hb.
      rewrite buildTrigramProfile_spec, Hts in Hb. cbn [bind] in Hb.
      inversion Hb as [Hp]. rewrite <- Hp, find_fold_bump in Hf. cbn [find] in Hf.
      destruct (occurrences t ts) as [| n]; [discriminate |].
      destruct (counted_rep n) as (v' & Hv' & Hrep).
      rewrite Hv' in Hf. inversion Hf; subst v'.
      apply count_rep_int. exact Hrep.
  - destruct read; cbn [fst].
    + destruct (buildTrigramProfile corpus) as [[| element p] | e]; cbn [fst].
      * split; [discriminate |]. intros (_ & p & Hp & Hne & _). inversion Hp. congruence.
      * split.
        -- intros H. injection H as Hw. split; [reflexivity |].
           exists (element :: p).
           split; [reflexivity | split; [discriminate | exact Hw]].
        -- intros (_ & p' & Hp & _ & Hw). inversion Hp; subst p'. rewrite Hw. reflexivity.
      * split; [discriminate |]. intros (_ & p & Hp & _). discriminate.
    + split; [discriminate |]. intros (H & _). discriminate.
Qed.

Lemma addLanguage_outcomes_witness :
  addLanguage read_sample write_succeeds "corpus.txt"
  = (Ok true, [(gua_csv, [["ell"; "2"]; ["hel"; "2"]; ["llo"; "1"]]%string)])
  /\ addLanguage read_sample write_succeeds "missing.txt" = (Ok false, []).
Proof.
  split.
  - destruct (addLanguage_outcomes read_sample write_succeeds "corpus.txt")
      as (_ & H & _).
    exact (proj1 (H eq_refl)).
  - destruct (addLanguage_outcomes read_sample write_succeeds "missing.txt")
      as (H & _).
    exact (H eq_refl).
Defined.

(** C10 as stated fails: the text is read, no profile is built from it, and
    [addLanguage] returns neither [false] nor [true]: it throws.  This
    happens with a line that holds an invalid byte, and with a well-formed
    line in which U+1F600 comes before two letters. *)
Lemma addLanguage_malformed_corpus_throws :
  fst (read_malformed "corpus.txt") = true
  /\ buildLanguageProfile (snd (read_malformed "corpus.txt")) = Throw range_error
  /\ addLanguage read_malformed write_succeeds "corpus.txt" = (Throw range_error, [])
  /\ fst (addLanguage read_malformed write_succeeds "corpus.txt") <> Ok false
  /\ line_code_points astral_first_line = Some [0x1F600; 97; 98]
  /\ addLanguage read_astral write_succeeds "corpus.txt" = (Throw range_error, [])
  /\ fst (addLanguage read_astral write_succeeds "corpus.txt") <> Ok false.
Proof.
  repeat split; try reflexivity; discriminate.
Qed.

(** ** [buildTrigramProfile] on lines of code points below U+10000 *)

Lemma utf8_step_scalar (bs : list Z) (cp : Z) (r : list Z) :
  utf8_step bs = Some (cp, r) -> Forall (fun b => 0 <= b) bs -> scalar_value cp.
Proof.
  unfold scalar_value.
  destruct bs as [| b0 r0]; [discriminate |].
  cbn [utf8_step]. unfold is_cont.
  repeat match goal with
         | |- context [if ?c then _ else _] => destruct c eqn:?
         | |- context [match ?l with [] => _ | _ :: _ => _ end] => destruct l
         end; try discriminate; shifts; intros H Hpos; injection H as <- _;
    repeat match goal with
           | Hf : Forall _ (_ :: _) |- _ => inversion Hf; subst; clear Hf
           end; zbool; lia.
Qed.

Lemma utf8_code_points_scalar (bs : list Z) (cps : list Z) :
  Forall (fun b => 0 <= b) bs ->
  utf8_code_points bs = Some cps -> Forall scalar_value cps.
Proof.
  revert cps.
  induction bs as [| bs Hne Hs | bs cp r Hs IH] using utf8_induction;
    intros cps Hpos Hc.
  - inversion Hc. constructor.
  - rewrite utf8_code_points_unfold, Hs in Hc. destruct bs; [contradiction | discriminate].
  - rewrite utf8_code_points_unfold, Hs in Hc.
    destruct bs as [| b0 r0]; [discriminate |].
    destruct (utf8_code_points r) as [cr |]; [| discriminate].
    inversion Hc; subst. constructor.
    + exact (utf8_step_scalar _ _ _ Hs Hpos).
    + apply IH; [exact (utf8_step_rest _ _ _ _ Hs Hpos) | reflexivity].
Qed.

Lemma tolower_bmp_scalar (cp : Z) : bmp_scalar cp -> bmp_scalar (tolower cp).
Proof.
  unfold bmp_scalar. intros H.
  destruct (tolower_cases cp) as [[Hc ->] | [_ ->]]; lia.
Qed.

Lemma utf16_to_utf8_bmp (ws : wstring) :
  Forall bmp_scalar ws -> utf16_to_utf8 ws = Some (flat_map utf8_bytes ws).
Proof.
  induction 1 as [| w ws Hw _ IH]; [reflexivity |].
  cbn [utf16_to_utf8 flat_map]. rewrite IH.
  unfold bmp_scalar in Hw. unfold is_high_surrogate, is_low_surrogate.
  zcases; reflexivity.
Qed.

Lemma windows3_Forall {A : Type} (P : A -> Prop) (l : list A) :
  Forall P l -> Forall (Forall P) (windows3 l).
Proof.
  induction l as [| a t IH]; intros H; [constructor |].
  cbn [windows3]. destruct t as [| b [| c t']]; try constructor.
  - inversion H as [| ? ? Ha Ht]; subst.
    inversion Ht as [| ? ? Hb Ht']; subst.
    inversion Ht' as [| ? ? Hc _]; subst.
    repeat constructor; assumption.
  - apply IH. inversion H; assumption.
Qed.

Lemma utf16_out_bmp (ws : wstring) :
  Forall bmp_scalar ws -> utf16_out ws = (codecvt_ok, flat_map utf8_bytes ws).
Proof.
  induction 1 as [| w ws Hw _ IH]; [reflexivity |].
  cbn [utf16_out flat_map]. rewrite IH.
  unfold bmp_scalar in Hw. unfold is_high_surrogate, is_low_surrogate.
  zcases; reflexivity.
Qed.

Lemma all_ok_to_bytes_bmp (wins : list wstring) :
  Forall (Forall bmp_scalar) wins ->
  all_ok (map to_bytes wins) = Ok (map trigram_key wins).
Proof.
  induction 1 as [| w wins Hw _ IH]; [reflexivity |].
  cbn [map all_ok]. unfold to_bytes at 1.
  rewrite (utf16_out_bmp _ Hw), IH. reflexivity.
Qed.

Lemma line_trigrams_bmp (line : string) :
  bmp_line line -> line_trigrams line = Ok (line_keys line).
Proof.
  intros (cps & Hcps & Hbmp). unfold line_trigrams, line_keys.
  rewrite Hcps. unfold line_code_points in Hcps.
  rewrite (from_bytes_strict _ (flat_map utf16_units cps))
    by (unfold utf8_to_utf16; rewrite Hcps; reflexivity).
  cbn [bind]. rewrite (utf16_units_bmp _ Hbmp).
  apply all_ok_to_bytes_bmp, windows3_Forall.
  pose proof (utf8_code_points_scalar _ _ (bytes_of_string_nonneg _) Hcps) as Hsc.
  apply Forall_map.
  rewrite Forall_forall in *. intros cp Hin.
  apply tolower_bmp_scalar.
  specialize (Hsc cp Hin). specialize (Hbmp cp Hin).
  unfold scalar_value in Hsc. unfold bmp_scalar. lia.
Qed.

Lemma text_trigrams_bmp (text : Text) :
  Forall bmp_line text -> text_trigrams text = Ok (text_keys text).
Proof.
  induction 1 as [| line text Hl _ IH]; [reflexivity |].
  cbn [text_trigrams]. rewrite (line_trigrams_bmp _ Hl), IH. reflexivity.
Qed.

Lemma line_keys_length (line : string) (cps : list Z) :
  line_code_points line = Some cps ->
  List.length (line_keys line) = (List.length cps - 2)%nat.
Proof.
  intros H. unfold line_keys. rewrite H.
  rewrite length_map, windows3_length, length_map. reflexivity.
Qed.

(** C1, on lines without code points above U+FFFF: a final carriage return
    is removed from a line, once; a line of fewer than three code points gives
    no trigram and a longer one gives one trigram for each of its
    [length - 2] windows of three code points, so that no window spans two
    lines; the call returns a profile that holds, for every trigram of the
    text, the number of its occurrences, a positive integer, up to 16777216
    where a [float] counter stays, and holds nothing else. *)
Theorem buildTrigramProfile_counts_windows :
  (forall s, strip_cr (s ++ String "013"%char EmptyString) = s)
  /\ (forall s, (forall s', s <> (s' ++ String "013"%char EmptyString)%string) ->
                strip_cr s = s)
  /\ (forall line cps,
         line_code_points line = Some cps ->
         ((List.length cps < 3)%nat -> line_keys line = [])
         /\ List.length (line_keys line) = (List.length cps - 2)%nat)
  /\ (forall text,
         Forall bmp_line text ->
         exists p, buildTrigramProfile text = Ok p /\ sorted p
                   /\ forall t,
                       match find t p with
                       | Some v =>
                         (0 < occurrences t (text_keys text))%nat
                         /\ float_to_Z v
                            = Some (Z.min (Z.of_nat (occurrences t (text_keys text)))
                                          (2 ^ 24))
                       | None => occurrences t (text_keys text) = 0%nat
                       end).
Proof.
  split; [exact strip_cr_app_cr |].
  split; [exact strip_cr_no_cr |].
  split.
  - intros line cps Hcps. pose proof (line_keys_length _ _ Hcps) as Hlen.
    split; [| exact Hlen].
    intros Hlt. destruct (line_keys line); [reflexivity |].
    cbn [List.length] in Hlen. lia.
  - intros text Hbmp. apply buildTrigramProfile_counts_units.
    apply text_trigrams_bmp. exact Hbmp.
Qed.

Lemma sample_text_bmp : Forall bmp_line sample_text.
Proof.
  repeat constructor; eexists; (split; [reflexivity | repeat constructor; lia]).
Qed.

Lemma buildTrigramProfile_counts_windows_witness :
  exists p, buildTrigramProfile sample_text = Ok p /\ sorted p
            /\ forall t,
                match find t p with
                | Some v =>
                  (0 < occurrences t ["hel"; "ell"; "llo"; "hel"; "ell"]%string)%nat
                  /\ float_to_Z v
                     = Some (Z.min (Z.of_nat (occurrences
                                                t ["hel"; "ell"; "llo"; "hel"; "ell"]%string))
                                   (2 ^ 24))
                | None => occurrences t ["hel"; "ell"; "llo"; "hel"; "ell"]%string = 0%nat
                end.
Proof.
  destruct buildTrigramProfile_counts_windows as (_ & _ & _ & H).
  exact (H sample_text sample_text_bmp).
Defined.

(** C1 as stated fails: a line of two code points, the second above U+FFFF,
    is three code units long and puts a key in the profile. *)
Lemma buildTrigramProfile_two_code_points :
  line_code_points astral_line = Some [97; 0x1F600]
  /\ from_bytes (strip_cr astral_line) = Ok [97; 0xD83D; 0xDE00]
  /\ buildTrigramProfile [astral_line] = Ok [(astral_line, F1)]
  /\ buildTrigramProfile [astral_line] <> Ok [].
Proof.
  repeat split; try reflexivity. discriminate.
Qed.

(** ** The order of the keys *)

Lemma string_compare_trans (a b c : string) :
  String.compare a b = Lt -> String.compare b c = Lt -> String.compare a c = Lt.
Proof.
  revert b c. induction a as [| x a IH]; intros [| y b] [| z c]; simpl;
    try discriminate; try reflexivity.
  unfold Ascii.compare.
  destruct (N.compare_spec (N_of_ascii x) (N_of_ascii y)) as [Hxy | Hxy | Hxy];
    destruct (N.compare_spec (N_of_ascii y) (N_of_ascii z)) as [Hyz | Hyz | Hyz];
    try discriminate; intros Hab Hbc;
    destruct (N.compare_spec (N_of_ascii x) (N_of_ascii z)) as [Hxz | Hxz | Hxz];
    try lia; try reflexivity.
  exact (IH b c Hab Hbc).
Qed.

Lemma string_compare_refl (a : string) : String.compare a a = Eq.
Proof.
  induction a as [| x a IH]; simpl; [reflexivity |].
  unfold Ascii.compare. rewrite N.compare_refl. exact IH.
Qed.

Lemma sorted_tail (e : string * float) (m : TrigramProfile) :
  sorted (e :: m) -> sorted m.
Proof. destruct e. simpl. intros [_ H]. exact H. Qed.

Lemma sorted_head_lt (k : string) (v : float) (m : TrigramProfile) :
  sorted ((k, v) :: m) ->
  forall k' v', In (k', v') m -> String.compare k k' = Lt.
Proof.
  revert k v. induction m as [| [k1 v1] m IH]; intros k v Hs k' v' Hin;
    [destruct Hin |].
  destruct Hs as [Hlt Hs]. destruct Hin as [Heq | Hin].
  - inversion Heq; subst. exact Hlt.
  - apply (string_compare_trans k k1 k'); [exact Hlt |].
    exact (IH k1 v1 Hs k' v' Hin).
Qed.

Lemma find_In (k : string) (v : float) (m : TrigramProfile) :
  find k m = Some v -> In (k, v) m.
Proof.
  induction m as [| [k0 v0] m IH]; simpl; [discriminate |].
  destruct (String.eqb_spec k k0) as [-> | _].
  - intros H. inversion H. left. reflexivity.
  - intros H. right. exact (IH H).
Qed.

Lemma sorted_find_head (k : string) (v : float) (m : TrigramProfile) :
  sorted ((k, v) :: m) -> find k m = None.
Proof.
  intros Hs. destruct (find k m) as [w |] eqn:Hf; [| reflexivity].
  apply find_In in Hf. pose proof (sorted_head_lt _ _ _ Hs _ _ Hf) as Hlt.
  rewrite string_compare_refl in Hlt. discriminate.
Qed.

Lemma sorted_In_find (k : string) (v : float) (m : TrigramProfile) :
  sorted m -> In (k, v) m -> find k m = Some v.
Proof.
  induction m as [| [k0 v0] m IH]; intros Hs Hin; [destruct Hin |].
  cbn [find]. destruct Hin as [Heq | Hin].
  - inversion Heq; subst. rewrite String.eqb_refl. reflexivity.
  - destruct (String.eqb_spec k k0) as [-> | _].
    + pose proof (sorted_head_lt _ _ _ Hs _ _ Hin) as Hlt.
      rewrite string_compare_refl in Hlt. discriminate.
    + exact (IH (sorted_tail _ _ Hs) Hin).
Qed.

Lemma sorted_find_below (k k0 : string) (v0 : float) (m : TrigramProfile) :
  sorted ((k0, v0) :: m) -> String.compare k k0 = Lt -> find k ((k0, v0) :: m) = None.
Proof.
  intros Hs Hlt. destruct (find k ((k0, v0) :: m)) as [w |] eqn:Hf; [| reflexivity].
  apply find_In in Hf. destruct Hf as [Heq | Hin].
  - inversion Heq; subst. rewrite string_compare_refl in Hlt. discriminate.
  - pose proof (sorted_head_lt _ _ _ Hs _ _ Hin) as Hlt'.
    pose proof (string_compare_trans _ _ _ Hlt Hlt') as Habs.
    rewrite string_compare_refl in Habs. discriminate.
Qed.

(** Two maps with the same content are the same list of entries. *)
Lemma sorted_ext (p q : TrigramProfile) :
  sorted p -> sorted q -> (forall k, find k p = find k q) -> p = q.
Proof.
  revert q. induction p as [| [k v] p IH]; intros [| [k2 v2] q] Hp Hq H.
  - reflexivity.
  - specialize (H k2). cbn [find] in H. rewrite String.eqb_refl in H. discriminate.
  - specialize (H k). cbn [find] in H. rewrite String.eqb_refl in H. discriminate.
  - assert (Hk : k = k2).
    { destruct (String.compare k k2) eqn:Hc.
      - apply String.compare_eq_iff. exact Hc.
      - pose proof (H k) as Hk. rewrite (sorted_find_below _ _ _ _ Hq Hc) in Hk.
        cbn [find] in Hk. rewrite String.eqb_refl in Hk. discriminate.
      - apply compare_Gt_Lt in Hc. pose proof (H k2) as Hk.
        rewrite (sorted_find_below _ _ _ _ Hp Hc) in Hk.
        cbn [find] in Hk. rewrite String.eqb_refl in Hk. discriminate. }
    subst k2.
    assert (Hv : v = v2).
    { specialize (H k). cbn [find] in H. rewrite String.eqb_refl in H.
      inversion H. reflexivity. }
    subst v2. f_equal.
    apply IH; [exact (sorted_tail _ _ Hp) | exact (sorted_tail _ _ Hq) |].
    intros k'. destruct (String.eqb_spec k' k) as [-> | Hne].
    + rewrite (sorted_find_head _ _ _ Hp), (sorted_find_head _ _ _ Hq). reflexivity.
    + specialize (H k'). cbn [find] in H.
      destruct (String.eqb_spec k' k); [contradiction | exact H].
Qed.

(** ** [buildTrigramProfile]: the order of the lines *)

Lemma text_trigrams_perm (text text' : Text) :
  Permutation text text' ->
  match text_trigrams text, text_trigrams text' with
  | Ok ts, Ok ts' => Permutation ts ts'
  | Throw _, Throw _ => True
  | _, _ => False
  end.
Proof.
  induction 1 as [| x l l' _ IH | x y l | l l' l'' _ IH1 _ IH2];
    cbn [text_trigrams].
  - constructor.
  - destruct (line_trigrams x) as [a | e]; cbn [bind]; [| exact I].
    destruct (text_trigrams l) as [ts | e], (text_trigrams l') as [ts' | e'];
      cbn [bind]; try exact IH.
    apply Permutation_app_head. exact IH.
  - destruct (line_trigrams x) as [a | e], (line_trigrams y) as [b | e'];
      cbn [bind]; try exact I.
    destruct (text_trigrams l) as [ts | e]; cbn [bind]; [| exact I].
    rewrite !app_assoc. apply Permutation_app_tail, Permutation_app_comm.
  - destruct (text_trigrams l) as [a | ea], (text_trigrams l') as [b | eb],
      (text_trigrams l'') as [c | ec]; try exact I; try contradiction.
    exact (Permutation_trans IH1 IH2).
Qed.

Lemma fold_bump_perm (ts ts' : list string) :
  Permutation ts ts' -> fold_left bump ts [] = fold_left bump ts' [].
Proof.
  intros Hperm. apply sorted_ext; try (apply sorted_fold_bump; exact I).
  intros k. rewrite !find_fold_bump. unfold occurrences.
  rewrite (proj1 (Permutation_count_occ string_dec ts ts') Hperm k). reflexivity.
Qed.

Lemma buildTrigramProfile_perm (text text' : Text) :
  Permutation text text' -> buildTrigramProfile text = buildTrigramProfile text'.
Proof.
  intros Hperm. apply text_trigrams_perm in Hperm.
  unfold buildTrigramProfile. rewrite !buildTrigramProfile_spec.
  destruct (text_trigrams text) as [ts | []], (text_trigrams text') as [ts' | []];
    cbn [bind]; try contradiction; [| reflexivity].
  rewrite (fold_bump_perm _ _ Hperm). reflexivity.
Qed.

(** X1: the order of the lines does not matter: a text and any rearrangement
    of its lines give the same outcome, the same profile or the same
    exception. *)
Theorem buildTrigramProfile_line_order (text text' : Text) :
  Permutation text text' -> buildTrigramProfile text = buildTrigramProfile text'.
Proof. exact (buildTrigramProfile_perm text text'). Qed.

Lemma buildTrigramProfile_line_order_witness :
  buildTrigramProfile ["hello"; "world"; "hell"]%string
  = buildTrigramProfile ["hell"; "hello"; "world"]%string.
Proof.
  apply buildTrigramProfile_line_order.
  apply Permutation_sym.
  apply (Permutation_cons_app ["hello"; "world"]%string [] "hell"%string).
  rewrite app_nil_r. apply Permutation_refl.
Defined.

(** ** [getCosineSimilarity]: both ways round *)

Lemma fmul_comm (x y : float) : fmul x y = fmul y x.
Proof.
  unfold fmul, SFmul.
  destruct x as [sx | sx | | sx mx ex], y as [sy | sy | | sy my ey];
    try reflexivity; try (rewrite xorb_comm; reflexivity).
  rewrite xorb_comm, Pos.mul_comm, Z.add_comm. reflexivity.
Qed.

Lemma shared_products_nil_r (t : TrigramProfile) : shared_products t [] = [].
Proof. induction t as [| e t IH]; [reflexivity | exact IH]. Qed.

Lemma shared_products_cons (e : string * float) (t l : TrigramProfile) :
  shared_products (e :: t) l
  = match find (fst e) l with
    | Some w => fmul (snd e) w :: shared_products t l
    | None => shared_products t l
    end.
Proof. unfold shared_products. cbn [flat_map]. destruct (find (fst e) l); reflexivity. Qed.

(** Entries of a sorted map after its first do not see a smaller key. *)
Lemma shared_products_skip (t : TrigramProfile) (k : string) (v : float)
      (l : TrigramProfile) :
  (forall k' v', In (k', v') t -> k' <> k) ->
  shared_products t ((k, v) :: l) = shared_products t l.
Proof.
  intros H. apply shared_products_ext. intros k' v' Hin. cbn [find].
  destruct (String.eqb_spec k' k) as [-> | _]; [| reflexivity].
  exfalso. exact (H _ _ Hin eq_refl).
Qed.

Lemma sorted_tail_ne (k : string) (v : float) (m : TrigramProfile) :
  sorted ((k, v) :: m) -> forall k' v', In (k', v') m -> k' <> k.
Proof.
  intros Hs k' v' Hin ->. pose proof (sorted_head_lt _ _ _ Hs _ _ Hin) as Hlt.
  rewrite string_compare_refl in Hlt. discriminate.
Qed.

Lemma sorted_above_ne (k k0 : string) (v0 : float) (m : TrigramProfile) :
  sorted ((k0, v0) :: m) -> String.compare k k0 = Lt ->
  forall k' v', In (k', v') ((k0, v0) :: m) -> k' <> k.
Proof.
  intros Hs Hlt k' v' Hin ->.
  pose proof (sorted_find_below _ _ _ _ Hs Hlt) as Hnone.
  rewrite (sorted_In_find _ _ _ Hs Hin) in Hnone. discriminate.
Qed.

Lemma shared_products_sym (n : nat) :
  forall t l : TrigramProfile,
    (List.length t + List.length l <= n)%nat -> sorted t -> sorted l ->
    shared_products t l = shared_products l t.
Proof.
  induction n as [| n IH]; intros t l Hlen Ht Hl.
  - destruct t, l; cbn [List.length] in Hlen; try lia. reflexivity.
  - destruct t as [| [k1 v1] t']; [rewrite shared_products_nil_r; reflexivity |].
    destruct l as [| [k2 v2] l']; [rewrite shared_products_nil_r; reflexivity |].
    cbn [List.length] in Hlen.
    destruct (String.compare k1 k2) eqn:Hc.
    + apply String.compare_eq_iff in Hc. subst k2.
      rewrite (shared_products_cons (k1, v1)), (shared_products_cons (k1, v2)).
      cbn [fst snd find]. rewrite String.eqb_refl.
      rewrite (shared_products_skip t' k1 v2 l' (sorted_tail_ne _ _ _ Ht)).
      rewrite (shared_products_skip l' k1 v1 t' (sorted_tail_ne _ _ _ Hl)).
      rewrite fmul_comm. f_equal.
      apply IH; [lia | exact (sorted_tail _ _ Ht) | exact (sorted_tail _ _ Hl)].
    + rewrite (shared_products_cons (k1, v1)). cbn [fst].
      rewrite (sorted_find_below _ _ _ _ Hl Hc).
      rewrite (shared_products_skip ((k2, v2) :: l') k1 v1 t'
                                    (sorted_above_ne _ _ _ _ Hl Hc)).
      apply IH; [cbn [List.length]; lia | exact (sorted_tail _ _ Ht) | exact Hl].
    + apply compare_Gt_Lt in Hc.
      rewrite (shared_products_cons (k2, v2)). cbn [fst].
      rewrite (sorted_find_below _ _ _ _ Ht Hc).
      rewrite (shared_products_skip ((k1, v1) :: t') k2 v2 l'
                                    (sorted_above_ne _ _ _ _ Ht Hc)).
      apply IH; [cbn [List.length]; lia | exact Ht | exact (sorted_tail _ _ Hl)].
Qed.

(** X2: although only the keys of the first profile are visited, the score
    of two maps is the same whichever comes first. *)
Theorem getCosineSimilarity_symmetric (a b : TrigramProfile) :
  sorted a -> sorted b ->
  fst (getCosineSimilarity a b) = fst (getCosineSimilarity b a).
Proof.
  intros Ha Hb. rewrite !getCosineSimilarity_spec. cbn [fst].
  rewrite (shared_products_sym _ a b (le_n _) Ha Hb). reflexivity.
Qed.

Lemma getCosineSimilarity_symmetric_witness :
  fst (getCosineSimilarity [("abc", F1); ("bcd", fadd F1 F1); ("xyz", F1)]%string
                           [("bcd", F1); ("cde", F1); ("xyz", fadd F1 F1)]%string)
  = fst (getCosineSimilarity [("bcd", F1); ("cde", F1); ("xyz", fadd F1 F1)]%string
                             [("abc", F1); ("bcd", fadd F1 F1); ("xyz", F1)]%string).
Proof.
  apply getCosineSimilarity_symmetric; repeat split.
Defined.

(** ** [normalizeTrigramProfile] and the score of a profile with itself *)

Lemma shared_products_self (p : TrigramProfile) :
  sorted p -> shared_products p p = map (fun e => fmul (snd e) (snd e)) p.
Proof.
  induction p as [| [k v] p IH]; intros Hs; [reflexivity |].
  rewrite shared_products_cons. cbn [fst snd find map]. rewrite String.eqb_refl.
  rewrite (shared_products_skip p k v p (sorted_tail_ne _ _ _ Hs)).
  rewrite (IH (sorted_tail _ _ Hs)). reflexivity.
Qed.

Lemma fold_left_fadd_map {A : Type} (f : A -> float) (l : list A) (a : float) :
  fold_left (fun acc x => fadd acc (f x)) l a = fold_left fadd (map f l) a.
Proof. revert a. induction l as [| x l IH]; intros a; [reflexivity | apply IH]. Qed.

Lemma sorted_map_values (g : float -> float) (p : TrigramProfile) :
  sorted p -> sorted (map (fun e => (fst e, g (snd e))) p).
Proof.
  induction p as [| [k v] p IH]; intros Hs; [exact I |].
  destruct Hs as [Hhd Htl]. cbn [map fst snd]. split; [| exact (IH Htl)].
  destruct p as [| [k1 v1] p']; [exact I | exact Hhd].
Qed.

(** X3: on a map, [normalizeTrigramProfile] divides every value by the square
    root of the score of the profile with itself; it keeps the keys and
    their order. *)
Theorem normalizeTrigramProfile_by_self_similarity (p : TrigramProfile) :
  sorted p ->
  normalizeTrigramProfile p
  = map (fun e => (fst e, fdiv (snd e) (sqrtf (fst (getCosineSimilarity p p))))) p
  /\ map fst (normalizeTrigramProfile p) = map fst p
  /\ sorted (normalizeTrigramProfile p).
Proof.
  intros Hs. unfold normalizeTrigramProfile.
  rewrite getCosineSimilarity_spec. cbn [fst].
  rewrite (shared_products_self p Hs), <- fold_left_fadd_map.
  split; [reflexivity |]. split.
  - rewrite map_map. reflexivity.
  - apply (sorted_map_values (fun v => fdiv v _)). exact Hs.
Qed.

Lemma normalizeTrigramProfile_by_self_similarity_witness :
  normalizeTrigramProfile [("ell", fadd F1 F1); ("hel", F1)]%string
  = [("ell"%string,
      fdiv (fadd F1 F1)
           (sqrtf (fst (getCosineSimilarity [("ell", fadd F1 F1); ("hel", F1)]%string
                                            [("ell", fadd F1 F1); ("hel", F1)]%string))));
     ("hel"%string,
      fdiv F1
           (sqrtf (fst (getCosineSimilarity [("ell", fadd F1 F1); ("hel", F1)]%string
                                            [("ell", fadd F1 F1); ("hel", F1)]%string))))].
Proof.
  apply (normalizeTrigramProfile_by_self_similarity
           [("ell", fadd F1 F1); ("hel", F1)]%string).
  repeat split.
Defined.

(** ** [identifyLanguage]: texts and catalogues that share nothing *)

Lemma shared_products_disjoint (t l : TrigramProfile) :
  (forall k v, In (k, v) t -> find k l = None) -> shared_products t l = [].
Proof.
  induction t as [| [k v] t IH]; intros H; [reflexivity |].
  rewrite shared_products_cons. cbn [fst]. rewrite (H k v) by (left; reflexivity).
  apply IH. intros k' v' Hin. apply (H k' v'). right. exact Hin.
Qed.

Lemma normalizeTrigramProfile_In (p : TrigramProfile) (k : string) (w : float) :
  In (k, w) (normalizeTrigramProfile p) -> exists v, In (k, v) p.
Proof.
  unfold normalizeTrigramProfile. intros H. apply in_map_iff in H.
  destruct H as ([k' v] & Heq & Hin). inversion Heq; subst. exists v. exact Hin.
Qed.

Lemma identifyLanguage_nothing_shared (text : Text) (p : TrigramProfile)
      (languages : LanguageProfiles) :
  buildTrigramProfile text = Ok p ->
  (forall e, In e languages ->
             forall k v, In (k, v) p -> find k (trigramProfile e) = None) ->
  identifyLanguage text languages = (Ok "---"%string, languages).
Proof.
  intros Hb Hdis. rewrite (identifyLanguage_built _ _ _ Hb).
  rewrite track_no_better; [reflexivity |].
  intros e He. cbn [fst]. unfold score. rewrite getCosineSimilarity_spec. cbn [fst].
  rewrite shared_products_disjoint; [reflexivity |].
  intros k w Hin. destruct (normalizeTrigramProfile_In _ _ _ Hin) as [v Hv].
  exact (Hdis e He k v Hv).
Qed.

(** X4: when no key of the text profile is a key of any catalogue entry,
    every score is [0.F] and ["---"] is returned. *)
Theorem identifyLanguage_disjoint_catalogue (text : Text) (p : TrigramProfile)
        (languages : LanguageProfiles) :
  buildTrigramProfile text = Ok p ->
  (forall e, In e languages ->
             forall k v, In (k, v) p -> find k (trigramProfile e) = None) ->
  (forall e, In e languages -> score (normalizeTrigramProfile p) e = F0)
  /\ identifyLanguage text languages = (Ok "---"%string, languages).
Proof.
  intros Hb Hdis. split; [| exact (identifyLanguage_nothing_shared _ _ _ Hb Hdis)].
  intros e He. unfold score. rewrite getCosineSimilarity_spec. cbn [fst].
  rewrite shared_products_disjoint; [reflexivity |].
  intros k w Hin. destruct (normalizeTrigramProfile_In _ _ _ Hin) as [v Hv].
  exact (Hdis e He k v Hv).
Qed.

Lemma identifyLanguage_disjoint_catalogue_witness :
  identifyLanguage ["hello"%string] [apart_first; apart_second]
  = (Ok "---"%string, [apart_first; apart_second]).
Proof.
  apply (identifyLanguage_disjoint_catalogue
           ["hello"%string] [("ell", F1); ("hel", F1); ("llo", F1)]%string
           [apart_first; apart_second]).
  - reflexivity.
  - intros e [<- | [<- | []]] k v [H | [H | [H | []]]]; inversion H; reflexivity.
Defined.

Lemma scan_line_short (p : TrigramProfile) (line : string) (ws : wstring) :
  from_bytes (strip_cr line) = Ok ws -> (List.length ws < 3)%nat ->
  scan_line p line = Ok p.
Proof.
  intros Hws Hlt. unfold scan_line. rewrite Hws. cbn [bind].
  destruct (Nat.ltb_spec (List.length ws) 3); [reflexivity | lia].
Qed.

Lemma buildTrigramProfile_short (text : Text) :
  (forall line, In line text ->
                exists ws, from_bytes (strip_cr line) = Ok ws
                           /\ (List.length ws < 3)%nat) ->
  buildTrigramProfile text = Ok [].
Proof.
  unfold buildTrigramProfile. generalize (@nil (string * float)) as p.
  induction text as [| line text IH]; intros p H; [reflexivity |].
  cbn [for_each]. destruct (H line (in_eq _ _)) as (ws & Hws & Hlt).
  rewrite (scan_line_short p line ws Hws Hlt). cbn [bind].
  apply IH. intros l Hl. apply H. right. exact Hl.
Qed.

(** X5: a text all of whose lines convert to fewer than three units, the
    empty text among them, has the empty profile, and for every catalogue
    [identifyLanguage] returns ["---"] for it: the division by a zero norm
    touches no entry. *)
Theorem identifyLanguage_short_lines (text : Text) (languages : LanguageProfiles) :
  (forall line, In line text ->
                exists ws, from_bytes (strip_cr line) = Ok ws
                           /\ (List.length ws < 3)%nat) ->
  buildTrigramProfile text = Ok []
  /\ identifyLanguage text languages = (Ok "---"%string, languages).
Proof.
  intros H. pose proof (buildTrigramProfile_short text H) as Hb.
  split; [exact Hb |].
  apply (identifyLanguage_nothing_shared text [] languages Hb).
  intros e _ k v [].
Qed.

Lemma identifyLanguage_short_lines_witness :
  buildTrigramProfile [""; "hi"; "a" ++ String "013"%char EmptyString]%string = Ok []
  /\ identifyLanguage [""; "hi"; "a" ++ String "013"%char EmptyString]%string
                      [tie_first; tie_second]
     = (Ok "---"%string, [tie_first; tie_second]).
Proof.
  apply identifyLanguage_short_lines.
  intros line [<- | [<- | [<- | []]]]; eexists; (split; [reflexivity | simpl; lia]).
Defined.

(** ** [identifyLanguage]: the sentinel *)

Lemma scored_code_not_sentinel (code s : string) :
  (code ++ " (" ++ s ++ ")")%string <> "---"%string.
Proof.
  destruct code as [| c1 [| c2 [| c3 [| c4 code]]]]; simpl; intros H;
    discriminate H.
Qed.

(** X6: when the text profile builds, ["---"] is returned exactly when no
    entry scores above 0, whatever the codes of the catalogue are. *)
Theorem identifyLanguage_sentinel_iff (text : Text) (p : TrigramProfile)
        (languages : LanguageProfiles) :
  buildTrigramProfile text = Ok p ->
  (fst (identifyLanguage text languages) = Ok "---"%string
   <-> forall e, In e languages ->
                 fgt (score (normalizeTrigramProfile p) e) F0 = false).
Proof.
  intros Hb. rewrite (identifyLanguage_built _ _ _ Hb). cbn [fst].
  set (tp := normalizeTrigramProfile p).
  destruct (track_maximum tp languages (F0, "---"%string))
    as [[Heq Hall] | (w & Hw & Heq & Hgt & Hall)]; cbn [fst] in *.
  - rewrite Heq. split; [intros _; exact Hall | intros _; reflexivity].
  - rewrite Heq. unfold render. cbn [fst snd]. rewrite Hgt. split.
    + intros H. inversion H as [H']. exfalso.
      exact (scored_code_not_sentinel _ _ H').
    + intros Hnone. rewrite (Hnone w Hw) in Hgt. discriminate.
Qed.

Lemma identifyLanguage_sentinel_iff_witness :
  fst (identifyLanguage ["hello"%string] [apart_first; tie_second]) <> Ok "---"%string.
Proof.
  intros H.
  pose proof (proj1 (identifyLanguage_sentinel_iff
                       ["hello"%string] [("ell", F1); ("hel", F1); ("llo", F1)]%string
                       [apart_first; tie_second] eq_refl) H tie_second
                    (or_intror (or_introl eq_refl))) as Habs.
  vm_compute in Habs. discriminate Habs.
Defined.

(** ** Malformed text in the callers *)

(** X7: a line that holds an invalid sequence after a well-formed beginning
    makes both callers throw: [identifyLanguage] throws and leaves the
    catalogue as it was, and [addLanguage], once the text is read, throws
    without calling [writeCSV]. *)
Theorem callers_propagate_range_error (text : Text) (line : string)
        (pre bad : list Z) :
  In line text ->
  bytes_of_string (strip_cr line) = pre ++ bad ->
  well_formed_utf8 pre -> invalid_sequence bad ->
  (forall languages,
      identifyLanguage text languages = (Throw range_error, languages))
  /\ (forall getTextFromFile writeCSV path,
         getTextFromFile path = (true, text) ->
         addLanguage getTextFromFile writeCSV path = (Throw range_error, [])).
Proof.
  intros Hin Hline Hpre Hbad.
  pose proof (buildTrigramProfile_throws_on _ _ _ _ Hin Hline Hpre Hbad) as Hb.
  split.
  - intros languages. unfold identifyLanguage. rewrite Hb. reflexivity.
  - intros getTextFromFile writeCSV path Hread.
    rewrite addLanguage_cases, Hread. cbn [fst snd]. rewrite Hb. reflexivity.
Qed.

Lemma callers_propagate_range_error_witness :
  identifyLanguage ["hello"%string; malformed_line] [tie_first]
  = (Throw range_error, [tie_first])
  /\ addLanguage read_malformed write_succeeds "corpus.txt" = (Throw range_error, []).
Proof.
  destruct (callers_propagate_range_error
              ["hello"%string; malformed_line] malformed_line
              [97; 98; 99] [0xFF; 100]) as [H1 H2].
  - right. left. reflexivity.
  - reflexivity.
  - repeat (apply wf_one; [lia |]). apply wf_empty.
  - apply invalid_first. lia.
  - split; [apply H1 | apply H2; reflexivity].
Defined.

(** ** Line endings, letter case and line order *)

Lemma scan_line_add_cr (p : TrigramProfile) (line : string) :
  (forall s', line <> add_cr s') -> scan_line p (add_cr line) = scan_line p line.
Proof.
  intros H. unfold scan_line, add_cr.
  rewrite strip_cr_app_cr, (strip_cr_no_cr line H). reflexivity.
Qed.

Lemma buildTrigramProfile_add_cr (text : Text) :
  (forall line, In line text -> forall s', line <> add_cr s') ->
  buildTrigramProfile (map add_cr text) = buildTrigramProfile text.
Proof.
  unfold buildTrigramProfile. generalize (@nil (string * float)) as p.
  induction text as [| line text IH]; intros p H; [reflexivity |].
  cbn [map for_each]. rewrite (scan_line_add_cr p line (H line (in_eq _ _))).
  destruct (scan_line p line) as [p' | e]; cbn [bind]; [| reflexivity].
  apply IH. intros l Hl. apply H. right. exact Hl.
Qed.

(** X8: a text whose lines end in a carriage return, as read from a file
    with CR LF line ends, has the profile of the same text without them. *)
Theorem buildTrigramProfile_crlf (text : Text) :
  (forall line, In line text -> forall s', line <> add_cr s') ->
  buildTrigramProfile (map add_cr text) = buildTrigramProfile text.
Proof. exact (buildTrigramProfile_add_cr text). Qed.

Lemma no_final_cr (line : string) :
  strip_cr line = line -> (0 < String.length line)%nat -> forall s', line <> add_cr s'.
Proof.
  intros Hs Hlen s' ->. unfold add_cr in Hs. rewrite strip_cr_app_cr in Hs.
  apply (f_equal String.length) in Hs. unfold add_cr in Hs.
  rewrite length_app_char in Hs. lia.
Qed.

Lemma buildTrigramProfile_crlf_witness :
  buildTrigramProfile [add_cr "Hello"; add_cr "world"]%string
  = buildTrigramProfile ["Hello"; "world"]%string.
Proof.
  apply (buildTrigramProfile_crlf ["Hello"; "world"]%string).
  intros line [<- | [<- | []]]; apply no_final_cr; try reflexivity; simpl; lia.
Defined.

(** X9: [identifyLanguage] gives the same outcome for two texts that differ
    in the case of ASCII letters and in the order of their lines. *)
Theorem identifyLanguage_case_and_order (text1 text2 : Text)
        (languages : LanguageProfiles) :
  Permutation (map ascii_lowercase text1) (map ascii_lowercase text2) ->
  identifyLanguage text1 languages = identifyLanguage text2 languages.
Proof.
  intros Hperm. unfold identifyLanguage.
  rewrite <- (buildTrigramProfile_ascii_lowercase text1).
  rewrite <- (buildTrigramProfile_ascii_lowercase text2).
  rewrite (buildTrigramProfile_perm _ _ Hperm). reflexivity.
Qed.

Lemma identifyLanguage_case_and_order_witness :
  identifyLanguage ["Hello"; "WORLD"]%string [tie_first; tie_second]
  = identifyLanguage ["world"; "hELLO"]%string [tie_first; tie_second].
Proof.
  apply identifyLanguage_case_and_order. apply perm_swap.
Defined.

(** ** [identifyLanguage]: entries that do not score *)

Lemma track_best_nonneg (tp : TrigramProfile) (languages : LanguageProfiles)
      (best : float * string) :
  fst best = F0 \/ fgt (fst best) F0 = true ->
  fst (fold_left (track tp) languages best) = F0
  \/ fgt (fst (fold_left (track tp) languages best)) F0 = true.
Proof.
  revert best. induction languages as [| e languages IH]; intros best Hb;
    cbn [fold_left]; [exact Hb |].
  apply IH. unfold track.
  destruct (fgt (score tp e) (fst best)) eqn:Hgt; cbn [fst]; [| exact Hb].
  right. destruct Hb as [Hz | Hpos].
  - rewrite Hz in Hgt. exact Hgt.
  - exact (fgt_trans _ _ _ Hgt Hpos).
Qed.

Lemma track_skip (tp : TrigramProfile) (l1 l2 : LanguageProfiles)
      (e : LanguageProfile) :
  fgt (score tp e) F0 = false ->
  fold_left (track tp) (l1 ++ e :: l2) (F0, "---"%string)
  = fold_left (track tp) (l1 ++ l2) (F0, "---"%string).
Proof.
  intros He. rewrite !fold_left_app. cbn [fold_left]. f_equal.
  set (b := fold_left (track tp) l1 (F0, "---"%string)).
  assert (Hb : fst b = F0 \/ fgt (fst b) F0 = true)
    by (apply track_best_nonneg; left; reflexivity).
  unfold track. destruct Hb as [Hz | Hpos].
  - rewrite Hz, He. reflexivity.
  - rewrite (fgt_false_trans _ _ _ He Hpos). reflexivity.
Qed.

(** X10: an entry that does not score above 0 can be taken out of the
    catalogue, wherever it stands, without changing what is returned. *)
Theorem identifyLanguage_drop_unscored (text : Text) (p : TrigramProfile)
        (l1 l2 : LanguageProfiles) (e : LanguageProfile) :
  buildTrigramProfile text = Ok p ->
  fgt (score (normalizeTrigramProfile p) e) F0 = false ->
  fst (identifyLanguage text (l1 ++ e :: l2))
  = fst (identifyLanguage text (l1 ++ l2)).
Proof.
  intros Hb He. rewrite !(identifyLanguage_built _ _ _ Hb). cbn [fst].
  rewrite (track_skip _ l1 l2 e He). reflexivity.
Qed.

Lemma identifyLanguage_drop_unscored_witness :
  fst (identifyLanguage ["hello"%string] [tie_first; apart_first; tie_second])
  = fst (identifyLanguage ["hello"%string] [tie_first; tie_second]).
Proof.
  apply (identifyLanguage_drop_unscored
           ["hello"%string] [("ell", F1); ("hel", F1); ("llo", F1)]%string
           [tie_first] [tie_second] apart_first); reflexivity.
Defined.

(** ** The converter, there and back *)

Lemma utf8_step_bytes (cp : Z) (r : list Z) :
  scalar_value cp -> utf8_step (utf8_bytes cp ++ r) = Some (cp, r).
Proof.
  unfold scalar_value, utf8_bytes. intros Hcp.
  destruct (Z.ltb_spec cp 0x80); [| destruct (Z.ltb_spec cp 0x800);
                                    [| destruct (Z.ltb_spec cp 0x10000)]];
    cbn [app utf8_step]; unfold is_cont; bits.
  - destruct (Z.ltb_spec cp 128); [reflexivity | lia].
  - zcases_div; cbn [andb orb negb]; do 2 f_equal; zdiv.
  - zcases_div; cbn [andb orb negb]; do 2 f_equal; zdiv.
  - zcases_div; cbn [andb orb negb]; do 2 f_equal; zdiv.
Qed.

Lemma utf8_bytes_cons (cp : Z) : exists b bs, utf8_bytes cp = b :: bs.
Proof.
  unfold utf8_bytes.
  destruct (cp <? 0x80); [| destruct (cp <? 0x800); [| destruct (cp <? 0x10000)]];
    eexists; eexists; reflexivity.
Qed.

Lemma utf8_to_utf16_bytes (cp : Z) (r : list Z) (ws : wstring) :
  scalar_value cp -> utf8_to_utf16 r = Some ws ->
  utf8_to_utf16 (utf8_bytes cp ++ r) = Some (utf16_units cp ++ ws).
Proof.
  intros Hcp Hr. rewrite utf8_to_utf16_unfold, (utf8_step_bytes cp r Hcp), Hr.
  destruct (utf8_bytes_cons cp) as (b & bs & ->). reflexivity.
Qed.

Lemma utf16_pair (w w2 : Z) :
  is_high_surrogate w = true -> is_low_surrogate w2 = true ->
  scalar_value (0x10000 + Z.shiftl (w - 0xD800) 10 + (w2 - 0xDC00))
  /\ utf16_units (0x10000 + Z.shiftl (w - 0xD800) 10 + (w2 - 0xDC00)) = [w; w2].
Proof.
  unfold is_high_surrogate, is_low_surrogate, scalar_value, utf16_units.
  intros Hw Hw2. zbool. bits. split; [lia |].
  destruct (Z.ltb_spec (65536 + (w - 55296) * 1024 + (w2 - 56320)) 65536); [lia |].
  f_equal; [| f_equal]; zdiv.
Qed.

Lemma utf16_to_utf8_back (n : nat) :
  forall (ws : wstring) (bs : list Z),
    (List.length ws <= n)%nat ->
    utf16_to_utf8 ws = Some bs -> utf8_to_utf16 bs = Some ws.
Proof.
  induction n as [| n IH]; intros ws bs Hlen H.
  - destruct ws; [| cbn [List.length] in Hlen; lia]. inversion H. reflexivity.
  - destruct ws as [| w r]; [inversion H; reflexivity |].
    cbn [List.length] in Hlen. cbn [utf16_to_utf8] in H.
    destruct (is_high_surrogate w) eqn:Hhi.
    + destruct r as [| w2 r']; [discriminate |].
      destruct (is_low_surrogate w2) eqn:Hlo; [| discriminate].
      destruct (utf16_to_utf8 r') as [bs' |] eqn:Hr'; [| discriminate].
      cbn [option_map] in H; apply some_inj in H; subst bs. destruct (utf16_pair w w2 Hhi Hlo) as [Hsc Hunits].
      cbn [List.length] in Hlen.
      rewrite (utf8_to_utf16_bytes _ bs' r' Hsc (IH r' bs' ltac:(lia) Hr')).
      rewrite Hunits. reflexivity.
    + destruct (is_low_surrogate w) eqn:Hlo; [discriminate |].
      destruct ((0 <=? w) && (w <? 0x10000)) eqn:Hrange; [| discriminate].
      destruct (utf16_to_utf8 r) as [bs' |] eqn:Hr; [| discriminate].
      cbn [option_map] in H; apply some_inj in H; subst bs.
      assert (Hsc : scalar_value w).
      { unfold is_high_surrogate, is_low_surrogate, scalar_value in *. zbool; lia. }
      rewrite (utf8_to_utf16_bytes _ bs' r Hsc (IH r bs' ltac:(lia) Hr)).
      unfold utf16_units. zbool.
      destruct (Z.ltb_spec w 0x10000); [reflexivity | lia].
Qed.

Lemma utf8_bytes_range (cp : Z) :
  scalar_value cp -> Forall (fun b => 0 <= b < 256) (utf8_bytes cp).
Proof.
  unfold scalar_value, utf8_bytes. intros Hcp.
  destruct (Z.ltb_spec cp 0x80); [| destruct (Z.ltb_spec cp 0x800);
                                    [| destruct (Z.ltb_spec cp 0x10000)]];
    bits; repeat constructor; zdiv.
Qed.

Lemma utf16_to_utf8_range (n : nat) :
  forall (ws : wstring) (bs : list Z),
    (List.length ws <= n)%nat ->
    utf16_to_utf8 ws = Some bs -> Forall (fun b => 0 <= b < 256) bs.
Proof.
  induction n as [| n IH]; intros ws bs Hlen H.
  - destruct ws; [| cbn [List.length] in Hlen; lia]. inversion H. constructor.
  - destruct ws as [| w r]; [inversion H; constructor |].
    cbn [List.length] in Hlen. cbn [utf16_to_utf8] in H.
    destruct (is_high_surrogate w) eqn:Hhi.
    + destruct r as [| w2 r']; [discriminate |].
      destruct (is_low_surrogate w2) eqn:Hlo; [| discriminate].
      destruct (utf16_to_utf8 r') as [bs' |] eqn:Hr'; [| discriminate].
      cbn [option_map] in H; apply some_inj in H; subst bs. cbn [List.length] in Hlen.
      apply Forall_app. split.
      * apply utf8_bytes_range. exact (proj1 (utf16_pair w w2 Hhi Hlo)).
      * apply (IH r' bs'); [lia | exact Hr'].
    + destruct (is_low_surrogate w) eqn:Hlo; [discriminate |].
      destruct ((0 <=? w) && (w <? 0x10000)) eqn:Hrange; [| discriminate].
      destruct (utf16_to_utf8 r) as [bs' |] eqn:Hr; [| discriminate].
      cbn [option_map] in H; apply some_inj in H; subst bs. apply Forall_app. split.
      * apply utf8_bytes_range.
        unfold is_high_surrogate, is_low_surrogate, scalar_value in *. zbool; lia.
      * apply (IH r bs'); [lia | exact Hr].
Qed.

Lemma surrogate_pair_value (w w2 : Z) :
  surrogate_pair_to_code_point w w2
  = 0x10000 + Z.shiftl (w - 0xD800) 10 + (w2 - 0xDC00).
Proof. unfold surrogate_pair_to_code_point. shifts. lia. Qed.

(** On well-formed UTF-16 whose units fit 16 bits, the library converts as
    the Unicode Standard says. *)
Lemma utf16_out_strict (n : nat) :
  forall (ws : wstring) (bs : list Z),
    (List.length ws <= n)%nat ->
    utf16_to_utf8 ws = Some bs -> utf16_out ws = (codecvt_ok, bs).
Proof.
  induction n as [| n IH]; intros ws bs Hlen H.
  - destruct ws; [| cbn [List.length] in Hlen; lia]. inversion H. reflexivity.
  - destruct ws as [| w r]; [inversion H; reflexivity |].
    cbn [List.length] in Hlen. cbn [utf16_to_utf8] in H. cbn [utf16_out].
    destruct (is_high_surrogate w) eqn:Hhi.
    + destruct r as [| w2 r']; [discriminate |].
      destruct (is_low_surrogate w2) eqn:Hlo; [| discriminate].
      destruct (utf16_to_utf8 r') as [bs' |] eqn:Hr'; [| discriminate].
      cbn [option_map] in H; apply some_inj in H; subst bs.
      cbn [List.length] in Hlen.
      rewrite (IH r' bs' ltac:(lia) Hr'), surrogate_pair_value. reflexivity.
    + destruct (is_low_surrogate w) eqn:Hlo; [discriminate |].
      destruct ((0 <=? w) && (w <? 0x10000)) eqn:Hrange; [| discriminate].
      destruct (utf16_to_utf8 r) as [bs' |] eqn:Hr; [| discriminate].
      cbn [option_map] in H; apply some_inj in H; subst bs.
      rewrite (IH r bs' ltac:(lia) Hr).
      zbool. destruct (Z.leb_spec 0 w); [| lia].
      destruct (Z.leb_spec w 0x10FFFF); [| lia]. reflexivity.
Qed.

(** What the library converts without an error is well-formed UTF-16,
    but for a last unit that is a high surrogate; that unit is left out. *)
Lemma utf16_out_ok (n : nat) :
  forall (ws : wstring) (r : codecvt_result) (bs : list Z),
    (List.length ws <= n)%nat ->
    Forall (fun u => 0 <= u <= 0xFFFF) ws ->
    utf16_out ws = (r, bs) -> r <> codecvt_error ->
    exists ws',
      utf16_to_utf8 ws' = Some bs
      /\ (ws = ws' \/ exists h, is_high_surrogate h = true /\ ws = ws' ++ [h]).
Proof.
  induction n as [| n IH]; intros ws r bs Hlen Hrange H Hr.
  - destruct ws; [| cbn [List.length] in Hlen; lia].
    inversion H; subst. exists []. split; [reflexivity | left; reflexivity].
  - destruct ws as [| w t].
    { inversion H; subst. exists []. split; [reflexivity | left; reflexivity]. }
    cbn [List.length] in Hlen. cbn [utf16_out] in H.
    inversion Hrange as [| ? ? Hw Ht]; subst.
    destruct (is_high_surrogate w) eqn:Hhi.
    + destruct t as [| w2 t'].
      { inversion H; subst. exists []. split; [reflexivity |].
        right. exists w. split; [exact Hhi | reflexivity]. }
      destruct (is_low_surrogate w2) eqn:Hlo;
        [| inversion H; subst; contradiction].
      inversion Ht as [| ? ? Hw2 Ht']; subst.
      cbn [List.length] in Hlen.
      destruct (utf16_out t') as [r' bs'] eqn:Hout.
      unfold emit in H. cbn [fst snd] in H.
      apply pair_equal_spec in H. destruct H as [<- <-].
      destruct (IH t' r' bs' ltac:(lia) Ht' Hout Hr) as (ws' & Hws' & Hshape).
      exists (w :: w2 :: ws'). split.
      * cbn [utf16_to_utf8]. rewrite Hhi, Hlo, Hws', surrogate_pair_value. reflexivity.
      * destruct Hshape as [-> | (h & Hh & ->)]; [left; reflexivity |].
        right. exists h. split; [exact Hh | reflexivity].
    + destruct (is_low_surrogate w) eqn:Hlo;
        [inversion H; subst; contradiction |].
      destruct (Z.leb_spec 0 w); [| lia].
      destruct (Z.leb_spec w 0x10FFFF); [| lia].
      cbn [andb negb] in H.
      destruct (utf16_out t) as [r' bs'] eqn:Hout.
      unfold emit in H. cbn [fst snd] in H.
      apply pair_equal_spec in H. destruct H as [<- <-].
      destruct (IH t r' bs' ltac:(lia) Ht Hout Hr) as (ws' & Hws' & Hshape).
      exists (w :: ws'). split.
      * cbn [utf16_to_utf8]. rewrite Hhi, Hlo, Hws'.
        destruct (Z.leb_spec 0 w); [| lia].
        destruct (Z.ltb_spec w 0x10000); [| lia]. reflexivity.
      * destruct Hshape as [-> | (h & Hh & ->)]; [left; reflexivity |].
        right. exists h. split; [exact Hh | reflexivity].
Qed.

(** What [to_bytes] gives converts back to where it came from, but for a
    high surrogate at the end. *)
Lemma from_bytes_to_bytes (ws : wstring) (k : string) :
  Forall (fun u => 0 <= u <= 0xFFFF) ws ->
  to_bytes ws = Ok k ->
  exists ws',
    from_bytes k = Ok ws'
    /\ (ws = ws' \/ exists h, is_high_surrogate h = true /\ ws = ws' ++ [h]).
Proof.
  intros Hrange. unfold to_bytes.
  destruct (utf16_out ws) as [r bs] eqn:Hout.
  assert (Hk : r <> codecvt_error -> Ok (string_of_bytes bs) = Ok k ->
               exists ws',
                 from_bytes k = Ok ws'
                 /\ (ws = ws' \/ exists h, is_high_surrogate h = true /\ ws = ws' ++ [h])).
  { intros Hr H. inversion H; subst k.
    destruct (utf16_out_ok _ ws r bs (le_n _) Hrange Hout Hr) as (ws' & Hws' & Hshape).
    exists ws'. split; [| exact Hshape].
    apply from_bytes_strict.
    rewrite (bytes_of_string_of_bytes bs (utf16_to_utf8_range _ ws' bs (le_n _) Hws')).
    exact (utf16_to_utf8_back _ ws' bs (le_n _) Hws'). }
  destruct r; [apply Hk; discriminate | apply Hk; discriminate | discriminate].
Qed.

Lemma read_utf8_code_point_range (bs : list Z) (c : Z) (next : list Z) :
  read_utf8_code_point bs = read_code_point c next ->
  Forall (fun b => 0 <= b < 256) bs ->
  0 <= c <= 0x10FFFF /\ Forall (fun b => 0 <= b < 256) next.
Proof.
  destruct bs as [| b0 r0]; [discriminate |].
  cbn [read_utf8_code_point]. unfold is_cont.
  repeat match goal with
         | |- context [if ?c then _ else _] => destruct c eqn:?
         | |- context [match ?l with [] => _ | _ :: _ => _ end] => destruct l
         end; try discriminate; shifts; intros H Hall; injection H as <- <-;
    repeat match goal with
           | Hf : Forall _ (_ :: _) |- _ => inversion Hf; subst; clear Hf
           end; zbool; (split; [lia | assumption]).
Qed.

Lemma utf16_units_range (c : Z) :
  0 <= c <= 0x10FFFF -> Forall (fun u => 0 <= u <= 0xFFFF) (utf16_units c).
Proof.
  intros Hc. unfold utf16_units. destruct (Z.ltb_spec c 0x10000).
  - repeat constructor; lia.
  - bits. repeat constructor; zdiv.
Qed.

Lemma utf16_in_range (bs : list Z) :
  Forall (fun b => 0 <= b < 256) bs ->
  Forall (fun u => 0 <= u <= 0xFFFF) (snd (utf16_in bs)).
Proof.
  induction bs as [| bs Hne Hs | bs Hs | bs c next Hs IH] using read_induction;
    intros Hall.
  - constructor.
  - rewrite utf16_in_unfold, Hs. destruct bs; [contradiction | constructor].
  - rewrite utf16_in_unfold, Hs. destruct bs; [discriminate | constructor].
  - rewrite utf16_in_unfold, Hs. destruct bs as [| b0 r0]; [discriminate |].
    destruct (read_utf8_code_point_range _ _ _ Hs Hall) as [Hc Hnext].
    unfold emit. cbn [snd]. apply Forall_app. split.
    + apply utf16_units_range. exact Hc.
    + apply IH. exact Hnext.
Qed.

(** The units [from_bytes] gives fit 16 bits. *)
Lemma from_bytes_range (s : string) (ws : wstring) :
  from_bytes s = Ok ws -> Forall (fun u => 0 <= u <= 0xFFFF) ws.
Proof.
  unfold from_bytes. intros H.
  pose proof (utf16_in_range _ (bytes_of_string_range s)) as Hr.
  destruct (utf16_in (bytes_of_string s)) as [[| |] ws']; cbn [snd] in Hr;
    inversion H; subst; exact Hr.
Qed.

Lemma tolower_range (u : Z) : 0 <= u <= 0xFFFF -> 0 <= tolower u <= 0xFFFF.
Proof. intros H. destruct (tolower_cases u) as [[Hc ->] | [_ ->]]; lia. Qed.

(** ** [buildTrigramProfile]: what the keys are *)

Lemma all_ok_In {A : Type} (rs : list (result A)) (xs : list A) (x : A) :
  all_ok rs = Ok xs -> In x xs -> In (Ok x) rs.
Proof.
  revert xs. induction rs as [| r rs IH]; intros xs; cbn [all_ok].
  - intros H Hin. inversion H; subst. destruct Hin.
  - destruct r as [y | e]; cbn [bind]; [| discriminate].
    destruct (all_ok rs) as [ys | e]; cbn [bind]; [| discriminate].
    intros H Hin. inversion H; subst. destruct Hin as [-> | Hin].
    + left. reflexivity.
    + right. exact (IH ys eq_refl Hin).
Qed.

Lemma windows3_In {A : Type} (l : list A) (w : list A) :
  In w (windows3 l) -> List.length w = 3%nat /\ forall x, In x w -> In x l.
Proof.
  induction l as [| a t IH]; [intros [] |].
  cbn [windows3]. destruct t as [| b [| c t']]; [intros [] | intros [] |].
  intros [<- | Hin].
  - split; [reflexivity |].
    intros x [<- | [<- | [<- | []]]]; simpl; auto.
  - destruct (IH Hin) as [Hlen Hsub]. split; [exact Hlen |].
    intros x Hx. right. exact (Hsub x Hx).
Qed.

Lemma text_trigrams_In (text : Text) (ts : list string) (k : string) :
  text_trigrams text = Ok ts -> In k ts ->
  exists line ws w,
    In line text /\ from_bytes (strip_cr line) = Ok ws
    /\ In w (windows3 (map tolower ws)) /\ to_bytes w = Ok k.
Proof.
  revert ts. induction text as [| line text IH]; intros ts; cbn [text_trigrams].
  - intros H. inversion H. intros [].
  - unfold line_trigrams at 1.
    destruct (from_bytes (strip_cr line)) as [ws | e] eqn:Hws; cbn [bind];
      [| discriminate].
    destruct (all_ok (map to_bytes (windows3 (map tolower ws)))) as [a | e] eqn:Ha;
      cbn [bind]; [| discriminate].
    destruct (text_trigrams text) as [ts' | e]; cbn [bind]; [| discriminate].
    intros H Hin. inversion H; subst. apply in_app_or in Hin.
    destruct Hin as [Hin | Hin].
    + apply (all_ok_In _ _ _ Ha) in Hin. apply in_map_iff in Hin.
      destruct Hin as (w & Hw & Hwin).
      exists line, ws, w. repeat split; auto using in_eq.
    + destruct (IH ts' eq_refl Hin) as (l & ws' & w & Hl & Hws' & Hw & Hk).
      exists l, ws', w. repeat split; auto using in_cons.
Qed.

Lemma buildTrigramProfile_Ok (text : Text) (p : TrigramProfile) :
  buildTrigramProfile text = Ok p ->
  exists ts, text_trigrams text = Ok ts /\ p = fold_left bump ts [].
Proof.
  unfold buildTrigramProfile. rewrite buildTrigramProfile_spec.
  destruct (text_trigrams text) as [ts | e]; cbn [bind]; [| discriminate].
  intros H. inversion H. exists ts. split; reflexivity.
Qed.

Lemma find_fold_bump_In (ts : list string) (k : string) (v : float) :
  find k (fold_left bump ts []) = Some v -> In k ts.
Proof.
  rewrite find_fold_bump. cbn [find]. intros H.
  apply (count_occ_In string_dec). unfold occurrences in H.
  destruct (count_occ string_dec ts k); [discriminate | lia].
Qed.

(** X11: every key of a profile that [buildTrigramProfile] returns comes from
    three consecutive units of one line of the text, lowered; the key
    converts back to these three units, or to the first two of them when the
    third is a high surrogate, the first half of a code point above U+FFFF;
    the units hold no ASCII capital. *)
Theorem buildTrigramProfile_keys (text : Text) (p : TrigramProfile)
        (k : string) (v : float) :
  buildTrigramProfile text = Ok p -> find k p = Some v ->
  exists line ws w w',
    In line text /\ from_bytes (strip_cr line) = Ok ws
    /\ In w (windows3 (map tolower ws))
    /\ List.length w = 3%nat /\ map tolower w = w
    /\ to_bytes w = Ok k /\ from_bytes k = Ok w'
    /\ (w = w' \/ exists h, is_high_surrogate h = true /\ w = w' ++ [h]).
Proof.
  intros Hb Hf. destruct (buildTrigramProfile_Ok _ _ Hb) as (ts & Hts & ->).
  apply find_fold_bump_In in Hf.
  destruct (text_trigrams_In _ _ _ Hts Hf) as (line & ws & w & Hl & Hws & Hw & Hk).
  destruct (windows3_In _ _ Hw) as [Hlen Hsub].
  assert (Hrange : Forall (fun u => 0 <= u <= 0xFFFF) w).
  { apply Forall_forall. intros x Hx. apply Hsub, in_map_iff in Hx.
    destruct Hx as (y & <- & Hy). apply tolower_range.
    pose proof (from_bytes_range _ _ Hws) as Hr. rewrite Forall_forall in Hr.
    exact (Hr y Hy). }
  destruct (from_bytes_to_bytes _ _ Hrange Hk) as (w' & Hw' & Hshape).
  exists line, ws, w, w'. repeat split; auto.
  rewrite <- (map_id w) at 2. apply map_ext_in. intros x Hx.
  apply Hsub, in_map_iff in Hx. destruct Hx as (y & <- & _).
  apply tolower_idempotent.
Qed.

Lemma buildTrigramProfile_keys_witness :
  exists line ws w w',
    In line [astral_line; "Hello"%string] /\ from_bytes (strip_cr line) = Ok ws
    /\ In w (windows3 (map tolower ws))
    /\ List.length w = 3%nat /\ map tolower w = w
    /\ to_bytes w = Ok "ell"%string /\ from_bytes "ell" = Ok w'
    /\ (w = w' \/ exists h, is_high_surrogate h = true /\ w = w' ++ [h]).
Proof.
  apply (buildTrigramProfile_keys
           [astral_line; "Hello"%string]
           [(astral_line, F1); ("ell", F1); ("hel", F1); ("llo", F1)]%string
           "ell"%string F1); reflexivity.
Defined.

Lemma utf8_step_inv (bs : list Z) (cp : Z) (r : list Z) :
  utf8_step bs = Some (cp, r) -> Forall (fun b => 0 <= b) bs ->
  bs = utf8_bytes cp ++ r.
Proof.
  destruct bs as [| b0 r0]; [discriminate |].
  cbn [utf8_step]. unfold is_cont.
  repeat match goal with
         | |- context [if ?c then _ else _] => destruct c eqn:?
         | |- context [match ?l with [] => _ | _ :: _ => _ end] => destruct l
         end; try discriminate; bits; intros H Hpos;
    apply some_inj, pair_equal_spec in H; destruct H as [<- <-];
    repeat match goal with
           | Hf : Forall _ (_ :: _) |- _ => inversion Hf; subst; clear Hf
           end; zbool; unfold utf8_bytes; bits; zcases_div; cbn [app];
    repeat f_equal; zdiv.
Qed.

Lemma utf16_to_utf8_units (cp : Z) (r : wstring) (bs : list Z) :
  scalar_value cp -> utf16_to_utf8 r = Some bs ->
  utf16_to_utf8 (utf16_units cp ++ r) = Some (utf8_bytes cp ++ bs).
Proof.
  unfold scalar_value, utf16_units. intros Hcp Hr.
  destruct (Z.ltb_spec cp 0x10000) as [Hlo | Hhi]; cbn [app utf16_to_utf8].
  - rewrite Hr. unfold is_high_surrogate, is_low_surrogate.
    zcases; reflexivity.
  - rewrite Hr.
    assert (Hback : 0x10000 + Z.shiftl (0xD800 + Z.shiftr (cp - 0x10000) 10 - 0xD800) 10
                    + (0xDC00 + Z.land (cp - 0x10000) 0x3FF - 0xDC00) = cp)
      by (bits; zdiv).
    rewrite Hback. unfold is_high_surrogate, is_low_surrogate. bits.
    zcases_div; reflexivity.
Qed.

Lemma utf8_to_utf16_back (bs : list Z) :
  forall ws, Forall (fun b => 0 <= b) bs ->
             utf8_to_utf16 bs = Some ws -> utf16_to_utf8 ws = Some bs.
Proof.
  induction bs as [| bs Hne Hs | bs cp r Hs IH] using utf8_induction;
    intros ws Hpos Hc.
  - inversion Hc. reflexivity.
  - rewrite utf8_to_utf16_unfold, Hs in Hc. destruct bs; [contradiction | discriminate].
  - rewrite utf8_to_utf16_unfold, Hs in Hc.
    destruct bs as [| b0 r0]; [discriminate |].
    destruct (utf8_to_utf16 r) as [wr |] eqn:Hr; [| discriminate].
    cbn [option_map] in Hc. apply some_inj in Hc. subst ws.
    rewrite (utf8_step_inv _ _ _ Hs Hpos).
    apply utf16_to_utf8_units.
    + exact (utf8_step_scalar _ _ _ Hs Hpos).
    + apply IH; [exact (utf8_step_rest _ _ _ _ Hs Hpos) | reflexivity].
Qed.

(** The lowered units of a well-formed line convert to the line in small
    letters. *)
Lemma to_bytes_lowered (s : string) (ws : wstring) :
  well_formed_utf8 (bytes_of_string s) ->
  from_bytes s = Ok ws -> to_bytes (map tolower ws) = Ok (ascii_lowercase s).
Proof.
  intros Hwf Hws. apply well_formed_utf8_converts in Hwf.
  destruct (utf8_to_utf16 (bytes_of_string s)) as [ws' |] eqn:Hs; [| contradiction].
  rewrite (from_bytes_strict _ _ Hs) in Hws. inversion Hws; subst ws'.
  assert (Hl : utf8_to_utf16 (bytes_of_string (ascii_lowercase s))
               = Some (map tolower ws))
    by (rewrite bytes_of_ascii_lowercase, utf8_to_utf16_tolower, Hs; reflexivity).
  unfold to_bytes.
  rewrite (utf16_out_strict _ _ _ (le_n _)
             (utf8_to_utf16_back _ _ (bytes_of_string_nonneg _) Hl)).
  rewrite string_of_bytes_of_string. reflexivity.
Qed.

(** X12: a well-formed line of exactly three units gives the one-key
    profile whose key is the line, without its final carriage return, in
    small letters. *)
Theorem buildTrigramProfile_three_units (line : string) (ws : wstring) :
  well_formed_utf8 (bytes_of_string (strip_cr line)) ->
  from_bytes (strip_cr line) = Ok ws -> List.length ws = 3%nat ->
  buildTrigramProfile [line] = Ok [(ascii_lowercase (strip_cr line), F1)].
Proof.
  intros Hwf Hws Hlen. unfold buildTrigramProfile. cbn [for_each].
  unfold scan_line. rewrite Hws. cbn [bind]. rewrite Hlen.
  cbn [Nat.ltb Nat.leb Nat.sub seq for_each].
  unfold count_trigram, substr. cbn [skipn].
  rewrite firstn_all2 by (rewrite length_map; lia).
  rewrite (to_bytes_lowered _ _ Hwf Hws). reflexivity.
Qed.

Lemma buildTrigramProfile_three_units_witness :
  buildTrigramProfile [add_cr "AbC"] = Ok [("abc"%string, F1)].
Proof.
  apply (buildTrigramProfile_three_units (add_cr "AbC") [65; 98; 67]);
    [| reflexivity | reflexivity].
  change (well_formed_utf8 [65; 98; 67]).
  repeat (apply wf_one; [lia |]). apply wf_empty.
Defined.

(** ** [buildTrigramProfile]: every outcome *)

Lemma length_insert (k : string) (v : float) (m : TrigramProfile) :
  (List.length (insert k v m) <= S (List.length m))%nat.
Proof.
  induction m as [| [k0 v0] m IH]; cbn [insert List.length]; [lia |].
  destruct (String.compare k k0); cbn [List.length]; lia.
Qed.

Lemma length_assign (k : string) (v : float) (m : TrigramProfile) :
  List.length (assign k v m) = List.length m.
Proof.
  induction m as [| [k0 v0] m IH]; cbn [assign List.length]; [reflexivity |].
  destruct (String.eqb k k0); cbn [List.length]; [reflexivity | rewrite IH; reflexivity].
Qed.

Lemma length_fold_bump (ts : list string) (p : TrigramProfile) :
  (List.length (fold_left bump ts p) <= List.length p + List.length ts)%nat.
Proof.
  revert p. induction ts as [| t ts IH]; intros p; cbn [fold_left List.length]; [lia |].
  specialize (IH (bump p t)).
  assert (List.length (bump p t) <= S (List.length p))%nat.
  { unfold bump. destruct (find t p).
    - rewrite length_assign. lia.
    - apply length_insert. }
  lia.
Qed.

(** X13: whatever the text, astral code points included,
    [buildTrigramProfile] throws when the listing of the windows of the text
    throws, and otherwise returns a map, its keys in strictly increasing
    order, with at most one key for each window, where every trigram of the
    text has its number of occurrences, up to 16777216, and nothing else has
    a value. *)
Theorem buildTrigramProfile_outcome (text : Text) :
  match text_trigrams text with
  | Throw e => buildTrigramProfile text = Throw e
  | Ok ts =>
    exists p, buildTrigramProfile text = Ok p /\ sorted p
              /\ (List.length p <= List.length ts)%nat
              /\ forall t,
                  match find t p with
                  | Some v =>
                    (0 < occurrences t ts)%nat
                    /\ float_to_Z v
                       = Some (Z.min (Z.of_nat (occurrences t ts)) (2 ^ 24))
                  | None => occurrences t ts = 0%nat
                  end
  end.
Proof.
  unfold buildTrigramProfile. rewrite buildTrigramProfile_spec.
  destruct (text_trigrams text) as [ts | e]; cbn [bind]; [| reflexivity].
  exists (fold_left bump ts []). split; [reflexivity |].
  split; [apply sorted_fold_bump; exact I |].
  split; [exact (length_fold_bump ts []) |].
  intros t. rewrite find_fold_bump. cbn [find].
  destruct (occurrences t ts) as [| n]; [reflexivity |].
  destruct (counted_rep n) as (v & -> & Hrep).
  split; [lia |]. apply count_rep_value. exact Hrep.
Qed.

(** ** [addLanguage]: the rows *)

Lemma sorted_NoDup (p : TrigramProfile) : sorted p -> NoDup (map fst p).
Proof.
  induction p as [| [k v] p IH]; intros Hs; [constructor |].
  cbn [map fst]. constructor; [| exact (IH (sorted_tail _ _ Hs))].
  intros Hin. apply in_map_iff in Hin. destruct Hin as ([k' v'] & Heq & Hin).
  cbn [fst] in Heq. subst k'.
  exact (sorted_tail_ne _ _ _ Hs _ _ Hin eq_refl).
Qed.

Lemma fold_bump_keys (ts : list string) (t : string) :
  In t (map fst (fold_left bump ts [])) <-> In t ts.
Proof.
  split.
  - intros Hin. apply in_map_iff in Hin. destruct Hin as ([k v] & Heq & Hin).
    cbn [fst] in Heq. subst k.
    apply (find_fold_bump_In ts t v).
    apply sorted_In_find; [apply sorted_fold_bump; exact I | exact Hin].
  - intros Hin. apply (count_occ_In string_dec) in Hin.
    destruct (find t (fold_left bump ts [])) as [v |] eqn:Hf.
    + apply find_In in Hf. apply in_map_iff. exists (t, v). split; [reflexivity | exact Hf].
    + rewrite find_fold_bump in Hf. cbn [find] in Hf. unfold occurrences in Hf.
      destruct (count_occ string_dec ts t); [lia | discriminate].
Qed.

(** X14: when the corpus is read and has at least one trigram, [addLanguage]
    calls [writeCSV] once, with one row for each distinct trigram of the
    corpus and no other row, no trigram twice, and returns what [writeCSV]
    returns. *)
Theorem addLanguage_rows (getTextFromFile : string -> bool * Text)
        (writeCSV : string -> CSVData -> bool) (path : string)
        (corpus : Text) (ts : list string) :
  getTextFromFile path = (true, corpus) ->
  text_trigrams corpus = Ok ts -> ts <> [] ->
  exists p,
    buildLanguageProfile corpus = Ok p
    /\ addLanguage getTextFromFile writeCSV path
       = (Ok (writeCSV gua_csv (csv_rows p)), [(gua_csv, csv_rows p)])
    /\ map (fun row => hd EmptyString row) (csv_rows p) = map fst p
    /\ NoDup (map fst p)
    /\ forall t, In t (map fst p) <-> In t ts.
Proof.
  intros Hread Hts Hne. exists (fold_left bump ts []).
  assert (Hb : buildTrigramProfile corpus = Ok (fold_left bump ts []))
    by (unfold buildTrigramProfile; rewrite buildTrigramProfile_spec, Hts; reflexivity).
  split; [exact Hb |]. split; [| split; [| split]].
  - rewrite addLanguage_cases, Hread. cbn [fst snd]. rewrite Hb.
    destruct (fold_left bump ts []) as [| e p'] eqn:Hp; [| reflexivity].
    exfalso. destruct ts as [| t ts']; [contradiction |].
    assert (Hin : In t (map fst (fold_left bump (t :: ts') [])))
      by (apply fold_bump_keys; left; reflexivity).
    rewrite Hp in Hin. destruct Hin.
  - unfold csv_rows. rewrite map_map. reflexivity.
  - apply sorted_NoDup, sorted_fold_bump. exact I.
  - intros t. apply fold_bump_keys.
Qed.

Lemma addLanguage_rows_witness :
  exists p,
    buildLanguageProfile sample_text = Ok p
    /\ addLanguage read_sample write_succeeds "corpus.txt"
       = (Ok (write_succeeds gua_csv (csv_rows p)), [(gua_csv, csv_rows p)])
    /\ map (fun row => hd EmptyString row) (csv_rows p) = map fst p
    /\ NoDup (map fst p)
    /\ forall t, In t (map fst p) <-> In t ["hel"; "ell"; "llo"; "hel"; "ell"]%string.
Proof.
  apply (addLanguage_rows read_sample write_succeeds "corpus.txt" sample_text
                          ["hel"; "ell"; "llo"; "hel"; "ell"]%string);
    [reflexivity | reflexivity | discriminate].
Defined.

(** ** [buildTrigramProfile]: when it throws *)

Lemma all_ok_throws {A : Type} (rs : list (result A)) :
  (exists e, all_ok rs = Throw e) <-> In (Throw range_error) rs.
Proof.
  induction rs as [| r rs IH]; cbn [all_ok].
  - split; [intros [e H]; discriminate | intros []].
  - destruct r as [x | []]; cbn [bind].
    + destruct (all_ok rs) as [xs | e]; cbn [bind].
      * split; [intros [e H]; discriminate |].
        intros [H | H]; [discriminate |].
        apply IH in H. destruct H as [e H]. discriminate.
      * split; [intros _; right; apply IH; exists e; reflexivity |].
        intros _. exists e. reflexivity.
    + split; [intros _; left; reflexivity | intros _; exists range_error; reflexivity].
Qed.

Lemma line_trigrams_throws (line : string) :
  (exists e, line_trigrams line = Throw e) <->
  from_bytes (strip_cr line) = Throw range_error
  \/ exists ws w, from_bytes (strip_cr line) = Ok ws
                  /\ In w (windows3 (map tolower ws))
                  /\ to_bytes w = Throw range_error.
Proof.
  unfold line_trigrams.
  destruct (from_bytes (strip_cr line)) as [ws | []]; cbn [bind].
  - rewrite all_ok_throws, in_map_iff. split.
    + intros (w & Hw & Hin). right. exists ws, w. auto.
    + intros [H | (ws' & w & Hws & Hin & Hw)]; [discriminate |].
      inversion Hws; subst ws'. exists w. auto.
  - split; [intros _; left; reflexivity | intros _; exists range_error; reflexivity].
Qed.

Lemma text_trigrams_throws (text : Text) :
  (exists e, text_trigrams text = Throw e) <->
  exists line, In line text /\ exists e, line_trigrams line = Throw e.
Proof.
  induction text as [| line text IH]; cbn [text_trigrams].
  - split; [intros [e H]; discriminate | intros (l & [] & _)].
  - destruct (line_trigrams line) as [a | e] eqn:Hl; cbn [bind].
    + destruct (text_trigrams text) as [ts | e]; cbn [bind].
      * split; [intros [e H]; discriminate |].
        intros (l & [<- | Hin] & e & He).
        -- rewrite Hl in He. discriminate.
        -- assert (Hex : exists e', @Throw (list string) e = Throw e')
             by (exists e; reflexivity).
           destruct (proj2 IH (ex_intro _ l (conj Hin (ex_intro _ e He)))) as [e' H'].
           discriminate.
      * split; [| intros _; exists e; reflexivity].
        intros _. destruct (proj1 IH (ex_intro _ e eq_refl)) as (l & Hin & He).
        exists l. split; [right; exact Hin | exact He].
    + split; [| intros _; exists e; reflexivity].
      intros _. exists line. split; [left; reflexivity | exists e; exact Hl].
Qed.

(** ** [buildTrigramProfile]: when a well-formed text makes it throw *)

Lemma high_not_low (u : Z) : is_high_surrogate u = true -> is_low_surrogate u = false.
Proof.
  unfold is_high_surrogate, is_low_surrogate. intros H. zbool.
  destruct (Z.leb_spec 0xDC00 u); [lia | reflexivity].
Qed.

Lemma low_not_high (u : Z) : is_low_surrogate u = true -> is_high_surrogate u = false.
Proof.
  intros H. destruct (is_high_surrogate u) eqn:Hh; [| reflexivity].
  rewrite (high_not_low _ Hh) in H. discriminate.
Qed.

Lemma paired_head_not_low (u : Z) (r : wstring) :
  paired (u :: r) -> is_low_surrogate u = false.
Proof.
  intros H. inversion H; subst; [assumption | apply high_not_low; assumption].
Qed.

Lemma paired_adjacent (u : wstring) :
  paired u ->
  forall p a b q, u = p ++ a :: b :: q ->
    (is_high_surrogate a = true -> is_low_surrogate b = true)
    /\ (is_low_surrogate b = true -> is_high_surrogate a = true).
Proof.
  induction 1 as [| u0 r Hh Hl Hr IH | h l r Hh Hl Hr IH]; intros p a b q Heq.
  - destruct p; discriminate.
  - destruct p as [| x p'].
    + cbn [app] in Heq. injection Heq as -> ->. split.
      * intros Ha. congruence.
      * intros Hb. rewrite (paired_head_not_low _ _ Hr) in Hb. discriminate.
    + cbn [app] in Heq. injection Heq as -> ->. exact (IH p' a b q eq_refl).
  - destruct p as [| x [| y p']].
    + cbn [app] in Heq. injection Heq as -> -> ->. split; auto.
    + cbn [app] in Heq. injection Heq as -> -> ->. split.
      * intros Ha. rewrite (low_not_high _ Hl) in Ha. discriminate.
      * intros Hb. rewrite (paired_head_not_low _ _ Hr) in Hb. discriminate.
    + cbn [app] in Heq. injection Heq as -> -> ->. exact (IH p' a b q eq_refl).
Qed.

Lemma windows3_In_split {A : Type} (l : list A) (w : list A) :
  In w (windows3 l) -> exists p x y z q, w = [x; y; z] /\ l = p ++ x :: y :: z :: q.
Proof.
  induction l as [| a t IH]; [intros [] |].
  cbn [windows3]. destruct t as [| b [| c t']]; [intros [] | intros [] |].
  intros [<- | Hin].
  - exists [], a, b, c, t'. split; reflexivity.
  - destruct (IH Hin) as (p & x & y & z & q & -> & Heq).
    exists (a :: p), x, y, z, q. split; [reflexivity |]. rewrite Heq. reflexivity.
Qed.

Lemma windows3_split_In {A : Type} (p : list A) (x y z : A) (q : list A) :
  In [x; y; z] (windows3 (p ++ x :: y :: z :: q)).
Proof.
  induction p as [| a p IH]; cbn [app].
  - left. reflexivity.
  - cbn [windows3].
    destruct (p ++ x :: y :: z :: q) as [| b [| c t]] eqn:Heq.
    + destruct p; discriminate.
    + destruct p as [| ? [| ? ?]]; discriminate.
    + right. exact IH.
Qed.

(** In well-formed UTF-16 the only window of three units that does not convert
    is the one that begins with a low surrogate. *)
Lemma utf16_out_window (u p q : wstring) (x y z : Z) :
  paired u -> Forall (fun c => 0 <= c <= 0xFFFF) u ->
  u = p ++ x :: y :: z :: q ->
  (fst (utf16_out [x; y; z]) = codecvt_error <-> is_low_surrogate x = true).
Proof.
  intros Hp Hrange Heq.
  destruct (paired_adjacent u Hp p x y (z :: q) Heq) as [Hxy Hyx].
  assert (Heq' : u = (p ++ [x]) ++ y :: z :: q)
    by (rewrite <- app_assoc; exact Heq).
  destruct (paired_adjacent u Hp (p ++ [x]) y z q Heq') as [Hyz Hzy].
  assert (Hx : 0 <= x <= 0xFFFF /\ 0 <= y <= 0xFFFF /\ 0 <= z <= 0xFFFF).
  { rewrite Heq in Hrange. apply Forall_app in Hrange. destruct Hrange as [_ Hr].
    inversion Hr as [| ? ? Hx Hr1]; subst. inversion Hr1 as [| ? ? Hy Hr2]; subst.
    inversion Hr2 as [| ? ? Hz _]; subst. auto. }
  destruct Hx as (Hx & Hy & Hz).
  assert (Hin : forall c, 0 <= c <= 0xFFFF -> (0 <=? c) && (c <=? 0x10FFFF) = true).
  { intros c Hc. destruct (Z.leb_spec 0 c), (Z.leb_spec c 0x10FFFF); try lia; reflexivity. }
  cbn [utf16_out]. rewrite (Hin x Hx), (Hin y Hy), (Hin z Hz). cbn [negb].
  destruct (is_high_surrogate x) eqn:Hhx.
  - rewrite (Hxy eq_refl), (high_not_low _ Hhx).
    destruct (is_high_surrogate z) eqn:Hhz.
    + split; [discriminate | discriminate].
    + destruct (is_low_surrogate z) eqn:Hlz.
      * specialize (Hzy eq_refl). rewrite (low_not_high y (Hxy eq_refl)) in Hzy.
        discriminate.
      * split; [discriminate | discriminate].
  - destruct (is_low_surrogate x) eqn:Hlx.
    + split; reflexivity.
    + destruct (is_high_surrogate y) eqn:Hhy.
      * rewrite (Hyz eq_refl). split; [discriminate | discriminate].
      * destruct (is_low_surrogate y) eqn:Hly.
        -- specialize (Hyx eq_refl). discriminate.
        -- destruct (is_high_surrogate z) eqn:Hhz.
           ++ split; [discriminate | discriminate].
           ++ destruct (is_low_surrogate z) eqn:Hlz.
              ** specialize (Hzy eq_refl). congruence.
              ** split; [discriminate | discriminate].
Qed.

Lemma utf16_units_paired (cps : list Z) :
  Forall scalar_value cps -> paired (flat_map utf16_units cps).
Proof.
  induction 1 as [| c cps Hc _ IH]; [constructor |].
  cbn [flat_map]. unfold utf16_units, scalar_value in *.
  destruct (Z.ltb_spec c 0x10000); cbn [app].
  - apply paired_one; [| | exact IH]; unfold is_high_surrogate, is_low_surrogate;
      zcases; reflexivity.
  - apply paired_two; [| | exact IH]; unfold is_high_surrogate, is_low_surrogate;
      bits; zcases_div; reflexivity.
Qed.

Lemma utf16_units_low (c : Z) :
  scalar_value c -> 0x10000 <= c ->
  exists h l, utf16_units c = [h; l] /\ is_low_surrogate l = true
              /\ is_low_surrogate h = false.
Proof.
  unfold scalar_value, utf16_units. intros Hc Hhi.
  destruct (Z.ltb_spec c 0x10000); [lia |].
  eexists; eexists. split; [reflexivity |].
  unfold is_low_surrogate. bits. split; zcases_div; reflexivity.
Qed.

Lemma cons_eq_app {A : Type} (x : A) (l p m : list A) :
  x :: l = p ++ m ->
  (p = [] /\ m = x :: l) \/ exists p', p = x :: p' /\ l = p' ++ m.
Proof.
  destruct p as [| y p']; cbn [app]; intros H.
  - left. split; [reflexivity | symmetry; exact H].
  - right. exists p'. inversion H. split; reflexivity.
Qed.

Lemma utf16_units_one (c : Z) :
  scalar_value c -> c < 0x10000 ->
  utf16_units c = [c] /\ is_low_surrogate c = false.
Proof.
  unfold scalar_value, utf16_units, is_low_surrogate. intros Hc Hlo.
  destruct (Z.ltb_spec c 0x10000); [| lia]. split; [reflexivity |].
  zcases; reflexivity.
Qed.

(** A low surrogate with two units after it: the second half of a code point
    above U+FFFF that has two units after it. *)
Lemma low_surrogate_split (cps : list Z) :
  Forall scalar_value cps ->
  ((exists p l y z q, flat_map utf16_units cps = p ++ l :: y :: z :: q
                      /\ is_low_surrogate l = true)
   <-> exists before c after,
         cps = before ++ c :: after /\ 0x10000 <= c
         /\ (2 <= List.length (flat_map utf16_units after))%nat).
Proof.
  intros Hsc. split.
  - intros (p & l & y & z & q & Heq & Hl). revert p Heq.
    induction Hsc as [| c cps Hc Hcps IH]; intros p Heq.
    + destruct p; discriminate.
    + cbn [flat_map] in Heq.
      destruct (Z.ltb_spec c 0x10000) as [Hlo | Hhi].
      * destruct (utf16_units_one c Hc Hlo) as [Hu Hnl].
        rewrite Hu in Heq. cbn [app] in Heq.
        apply cons_eq_app in Heq. destruct Heq as [[_ Hm] | (p' & _ & Heq)].
        -- apply (f_equal (@hd Z 0)) in Hm. cbn [hd] in Hm. congruence.
        -- destruct (IH p' Heq) as (before & c' & after & Hcps' & Hc' & Hlen).
           exists (c :: before), c', after. rewrite Hcps'. repeat split; auto.
      * destruct (utf16_units_low c Hc Hhi) as (h & l0 & Hu & Hl0 & Hh).
        rewrite Hu in Heq. cbn [app] in Heq.
        apply cons_eq_app in Heq. destruct Heq as [[_ Hm] | (p' & _ & Heq)].
        -- apply (f_equal (@hd Z 0)) in Hm. cbn [hd] in Hm. congruence.
        -- apply cons_eq_app in Heq. destruct Heq as [[_ Hm] | (p'' & _ & Heq)].
           ++ exists [], c, cps. split; [reflexivity |]. split; [exact Hhi |].
              apply (f_equal (@tl Z)) in Hm. cbn [tl] in Hm.
              rewrite <- Hm. cbn [List.length]. lia.
           ++ destruct (IH p'' Heq) as (before & c' & after & Hcps' & Hc' & Hlen).
              exists (c :: before), c', after. rewrite Hcps'. repeat split; auto.
  - intros (before & c & after & -> & Hc & Hlen).
    apply Forall_app in Hsc. destruct Hsc as [_ Hsc].
    inversion Hsc as [| ? ? Hcs _]; subst.
    destruct (utf16_units_low c Hcs Hc) as (h & l & Hu & Hl & _).
    destruct (flat_map utf16_units after) as [| y [| z q]] eqn:Hafter;
      [cbn [List.length] in Hlen; lia | cbn [List.length] in Hlen; lia |].
    exists (flat_map utf16_units before ++ [h]), l, y, z, q. split; [| exact Hl].
    rewrite flat_map_app. cbn [flat_map]. rewrite Hu, Hafter, <- app_assoc. reflexivity.
Qed.

Lemma tolower_scalar (cp : Z) : scalar_value cp -> scalar_value (tolower cp).
Proof.
  unfold scalar_value. intros H.
  destruct (tolower_cases cp) as [[Hc ->] | [_ ->]]; lia.
Qed.

Lemma flat_map_units_tolower (cps : list Z) :
  map tolower (flat_map utf16_units cps) = flat_map utf16_units (map tolower cps).
Proof.
  induction cps as [| c cps IH]; [reflexivity |].
  cbn [flat_map map]. rewrite map_app, IH, utf16_units_tolower_any. reflexivity.
Qed.

Lemma to_bytes_throws (w : wstring) :
  to_bytes w = Throw range_error <-> fst (utf16_out w) = codecvt_error.
Proof.
  unfold to_bytes. destruct (utf16_out w) as [[| |] bs]; cbn [fst];
    split; intros H; try discriminate; reflexivity.
Qed.

(** The windows of a well-formed line that do not convert back. *)
Lemma line_window_throws (cps : list Z) :
  Forall scalar_value cps ->
  ((exists w, In w (windows3 (map tolower (flat_map utf16_units cps)))
              /\ to_bytes w = Throw range_error)
   <-> exists before c after,
         cps = before ++ c :: after /\ 0x10000 <= c
         /\ (2 <= List.length (flat_map utf16_units after))%nat).
Proof.
  intros Hsc. rewrite flat_map_units_tolower.
  assert (Hlow : Forall scalar_value (map tolower cps)).
  { apply Forall_map. rewrite Forall_forall in *. intros c Hc.
    apply tolower_scalar. exact (Hsc c Hc). }
  pose proof (utf16_units_paired _ Hlow) as Hp.
  assert (Hrange : Forall (fun c => 0 <= c <= 0xFFFF)
                          (flat_map utf16_units (map tolower cps))).
  { clear Hp. induction Hlow as [| c l Hc _ IH]; [constructor |].
    cbn [flat_map]. apply Forall_app. split; [| exact IH].
    apply utf16_units_range. unfold scalar_value in Hc. lia. }
  assert (Hwin : (exists w, In w (windows3 (flat_map utf16_units (map tolower cps)))
                            /\ to_bytes w = Throw range_error)
                 <-> exists p l y z q,
                     flat_map utf16_units (map tolower cps) = p ++ l :: y :: z :: q
                     /\ is_low_surrogate l = true).
  { split.
    - intros (w & Hw & Hthrow).
      destruct (windows3_In_split _ _ Hw) as (p & x & y & z & q & -> & Heq).
      exists p, x, y, z, q. split; [exact Heq |].
      apply (utf16_out_window _ p q x y z Hp Hrange Heq).
      apply to_bytes_throws. exact Hthrow.
    - intros (p & l & y & z & q & Heq & Hl).
      exists [l; y; z]. split.
      + rewrite Heq. apply windows3_split_In.
      + apply to_bytes_throws.
        apply (utf16_out_window _ p q l y z Hp Hrange Heq). exact Hl. }
  rewrite Hwin, (low_surrogate_split _ Hlow). split.
  - intros (before & c & after & Heq & Hc & Hlen).
    apply map_eq_app in Heq.
    destruct Heq as (before' & rest & -> & <- & Hrest).
    apply map_eq_cons in Hrest. destruct Hrest as (c' & after' & -> & <- & <-).
    exists before', c', after'. split; [reflexivity |]. split.
    + destruct (tolower_cases c') as [[H1 H2] | [_ H2]]; rewrite H2 in Hc; lia.
    + rewrite <- flat_map_units_tolower, length_map in Hlen. exact Hlen.
  - intros (before & c & after & -> & Hc & Hlen).
    exists (map tolower before), (tolower c), (map tolower after).
    rewrite map_app. cbn [map]. split; [reflexivity |]. split.
    + destruct (tolower_cases c) as [[H1 H2] | [_ H2]]; rewrite H2; lia.
    + rewrite <- flat_map_units_tolower, length_map. exact Hlen.
Qed.

Lemma line_trigrams_well_formed (line : string) (cps : list Z) :
  line_code_points line = Some cps ->
  ((exists e, line_trigrams line = Throw e)
   <-> exists before c after,
         cps = before ++ c :: after /\ 0x10000 <= c
         /\ (2 <= List.length (flat_map utf16_units after))%nat).
Proof.
  intros Hcps. unfold line_code_points in Hcps.
  pose proof (utf8_code_points_scalar _ _ (bytes_of_string_nonneg _) Hcps) as Hsc.
  rewrite <- (line_window_throws cps Hsc).
  unfold line_trigrams.
  rewrite (from_bytes_strict _ (flat_map utf16_units cps))
    by (unfold utf8_to_utf16; rewrite Hcps; reflexivity).
  cbn [bind]. rewrite all_ok_throws, in_map_iff. split.
  - intros (w & Hw & Hin). exists w. split; assumption.
  - intros (w & Hin & Hw). exists w. split; assumption.
Qed.

Lemma well_formed_line_code_points (line : string) :
  well_formed_utf8 (bytes_of_string (strip_cr line)) ->
  exists cps, line_code_points line = Some cps.
Proof.
  intros H. apply well_formed_utf8_code_points in H. unfold line_code_points.
  destruct (utf8_code_points (bytes_of_string (strip_cr line))) as [cps |];
    [exists cps; reflexivity | contradiction].
Qed.

(** X15: a text whose lines are well-formed UTF-8 makes
    [buildTrigramProfile] throw exactly when one of its lines has a code
    point above U+FFFF with at least two UTF-16 code units after it: the
    window that begins with the second half of that code point does not
    convert back. *)
Theorem buildTrigramProfile_well_formed_throws (text : Text) :
  (forall line, In line text ->
                well_formed_utf8 (bytes_of_string (strip_cr line))) ->
  (buildTrigramProfile text = Throw range_error
   <-> exists line cps before c after,
         In line text /\ line_code_points line = Some cps
         /\ cps = before ++ c :: after /\ 0x10000 <= c
         /\ (2 <= List.length (flat_map utf16_units after))%nat).
Proof.
  intros Hwf. unfold buildTrigramProfile. rewrite buildTrigramProfile_spec. split.
  - intros H.
    assert (Hex : exists e, text_trigrams text = Throw e).
    { destruct (text_trigrams text) as [ts | e]; [discriminate | exists e; reflexivity]. }
    apply text_trigrams_throws in Hex. destruct Hex as (line & Hin & He).
    destruct (well_formed_line_code_points _ (Hwf line Hin)) as [cps Hcps].
    apply (line_trigrams_well_formed _ _ Hcps) in He.
    destruct He as (before & c & after & Heq & Hc & Hlen).
    exists line, cps, before, c, after. auto.
  - intros (line & cps & before & c & after & Hin & Hcps & Heq & Hc & Hlen).
    assert (He : exists e, line_trigrams line = Throw e).
    { apply (line_trigrams_well_formed _ _ Hcps). exists before, c, after. auto. }
    destruct (proj2 (text_trigrams_throws text) (ex_intro _ line (conj Hin He)))
      as [[] ->].
    reflexivity.
Qed.

Lemma buildTrigramProfile_well_formed_throws_witness :
  buildTrigramProfile ["hello"%string; astral_first_line] = Throw range_error
  /\ buildTrigramProfile [astral_last_line]
     = Ok [("ab"%string, F1); (string_of_bytes [98; 0xF0; 0x9F; 0x98; 0x80], F1)].
Proof.
  split; [| reflexivity].
  apply (buildTrigramProfile_well_formed_throws ["hello"%string; astral_first_line]).
  - intros line [<- | [<- | []]].
    + change (well_formed_utf8 [104; 101; 108; 108; 111]).
      repeat (apply wf_one; [lia |]). apply wf_empty.
    + change (well_formed_utf8 [0xF0; 0x9F; 0x98; 0x80; 97; 98]).
      apply wf_four; [lia | lia | lia |].
      repeat (apply wf_one; [lia |]). apply wf_empty.
  - exists astral_first_line, [0x1F600; 97; 98], [], 0x1F600, [97; 98].
    split; [right; left; reflexivity |].
    split; [reflexivity |]. split; [reflexivity |].
    split; [lia | simpl; lia].
Defined.

